(** * JResponsiveTableHelper: the responsive table helper, embedded and verified

    A shallow embedding of [assets/responsive-table-helper.js]: the jQuery
    widget that hides table columns by priority when the container shrinks
    (horizontal treatment) and shows the hidden cells of a row in a sub-row
    toggled by a button (vertical treatment).

    The DOM is modelled by the part of it the helper reads and writes: rows,
    cells, their display state, the [rth-expanded-row] and [rth-sub-row]
    classes.  Measurements the browser makes (widths, text content) are taken
    from a [browser] record.  A JavaScript exception is an [Abrupt]
    completion that carries the state left behind. *)

From stdpp Require Import gmap list strings pretty sorting.
From Stdlib Require Import ZArith Lia.

Open Scope Z_scope.

(** ** JavaScript values the helper computes with *)

(** A width as JavaScript holds it: a number of pixels, or [NaN] (what
    [originalAvailableWidth -= "auto"] leaves when no padding was found). *)
Inductive number :=
  | Num (z : Z)
  | NaN.

(** [a - z] and [a < z] on numbers; every comparison with [NaN] is false. *)
Definition num_sub (a : number) (z : Z) : number :=
  match a with
  | Num x => Num (x - z)
  | NaN => NaN
  end.

Definition num_lt (a : number) (z : Z) : bool :=
  match a with
  | Num x => bool_decide (x < z)
  | NaN => false
  end.

(** Exceptions the engine raises on the paths modelled here. *)
Inductive exn :=
  | TypeError (msg : string).

(** The outcome of running a function on a state: it returns, or it throws
    and leaves the state as it was when the exception was raised. *)
Inductive completion (S : Type) :=
  | Normal (s : S)
  | Abrupt (e : exn) (s : S).
Arguments Normal {S} s.
Arguments Abrupt {S} e s.

(** The state a run leaves, however it ended. *)
Definition outcome {S : Type} (c : completion S) : S :=
  match c with
  | Normal s => s
  | Abrupt _ s => s
  end.

(** [Array.prototype.indexOf] on an array of column indexes: the position of
    the first occurrence, or [-1]. *)
Fixpoint indexOf (arr : list nat) (value : nat) : Z :=
  match arr with
  | [] => -1
  | x :: rest =>
      if decide (x = value) then 0
      else let r := indexOf rest value in
           if decide (r = -1) then -1 else r + 1
  end.

(** [for (var i in obj)] and [Object.keys(obj)] on an object whose keys are
    array indexes: the entries in ascending key order. *)
Definition key_le (a b : nat * Z) : Prop := (a.1 ≤ b.1)%nat.

#[global] Instance key_le_dec : RelDecision key_le.
Proof. intros a b. unfold key_le. apply _. Defined.

Definition for_in (obj : gmap nat Z) : list (nat * Z) :=
  merge_sort key_le (map_to_list obj).

(** ** The table *)

Inductive tag := th | td.

#[global] Instance tag_eq_dec : EqDecision tag.
Proof. solve_decision. Defined.

(** A [th] or [td]: its inner HTML and whether jQuery shows it
    ([false] after [.hide()], i.e. [display: none]). *)
Record cell := Cell {
  cell_tag : tag;
  cell_html : string;
  cell_shown : bool;
}.

(** A [tr] of the table nested in a sub-row: one label/value pair. *)
Record inner_tr := InnerTr {
  inner_shown : bool;
  inner_cells : list cell;
}.

(** A [tr] of the table itself.  [Tr expanded cells] is a header or content
    row, [expanded] telling whether it carries [rth-expanded-row].
    [SubTr shown inner] is [<tr class="rth-sub-row"><td colspan="999">
    <table>inner</table></td></tr>], [shown] being the display state of its
    only [td]. *)
Inductive tr :=
  | Tr (expanded : bool) (cells : list cell)
  | SubTr (shown : bool) (inner : list inner_tr).

(** The rows of a table, grouped by parent ([thead], [tbody], ...): siblings
    are the rows of one group; [find('tr')] walks the groups in order. *)
Abbreviation table := (list (list tr)).

(** The table as the page author wrote it, before the helper touched it. *)
Abbreviation markup := (list (list (list cell))).

Definition hasClass_sub_row (r : tr) : bool :=
  match r with
  | SubTr _ _ => true
  | Tr _ _ => false
  end.

(** [jTr.find('> th, > td')]: the cells of a row of its own.  The only cell
    of a sub-row is the [td] that holds the nested table. *)
Definition own_cells (r : tr) : list cell :=
  match r with
  | Tr _ cells => cells
  | SubTr shown _ => [Cell td "" shown]
  end.

(** [jTr.find('> td')] *)
Definition find_td (r : tr) : list cell :=
  filter (λ c, cell_tag c = td) (own_cells r).

(** [$(subRow).find('tr')]: the rows of the nested table. *)
Definition inner_rows (r : tr) : list inner_tr :=
  match r with
  | Tr _ _ => []
  | SubTr _ inner => inner
  end.

Definition hide (c : cell) : cell := Cell (cell_tag c) (cell_html c) false.
Definition show (c : cell) : cell := Cell (cell_tag c) (cell_html c) true.

(** What the browser measures for the helper. *)
Record browser := Browser {
  container_outerWidth : Z;       (* this.jTableContainer.outerWidth() *)
  window_width : Z;               (* $(window).width() *)
  cell_outerWidth : nat → Z;      (* outerWidth() of the i-th cell of the first row *)
  cell_text : cell → string;      (* $(cell).text().trim() *)
}.

(** ** Options *)

Inductive column_content :=
  | ContentString (html : string)
  | ContentArray (th_html td_html : string)
  | ContentCallback (f : cell → list cell → cell).

Inductive labels_option :=
  | LabelsAuto
  | Labels (l : list string).

Inductive padding_option :=
  | PaddingAuto
  | Padding (px : Z).

Record options_t := Options {
  contentRowStartIndex : nat;
  extraColumnContent : column_content;
  collapsibleColumnIndexes : list nat;
  expandedColumnFilterIndexes : list nat;
  columnLabels : labels_option;
  padding : padding_option;
}.

(** The double quote character, for the markup of the defaults. *)
Definition dquote : string := String (Ascii.ascii_of_nat 34) EmptyString.

Definition _defaults : options_t := {|
  contentRowStartIndex := 0;
  extraColumnContent :=
    ContentString
      ("<a href=" +:+ dquote +:+ "#" +:+ dquote
       +:+ " class=" +:+ dquote +:+ "rth-toggle-button" +:+ dquote
       +:+ "<i class=" +:+ dquote +:+ "fas fa-plus-circle" +:+ dquote +:+ "></i></a>");
  collapsibleColumnIndexes := [];
  expandedColumnFilterIndexes := [];
  columnLabels := LabelsAuto;
  padding := PaddingAuto;
|}.

(** A method slot of the object.  The prototype defines no [error]; a host
    page can add one.  [HostFunction] stands for a function that records
    the message and returns. *)
Inductive method :=
  | Undefined
  | HostFunction.

(** The helper once [listen] has taken its measurements. *)
Record helper := Helper {
  options : options_t;
  error : method;
  originalAvailableWidth : number;
  initWindowWidth : Z;
  minWidths : gmap nat Z;
  availableWidth : number;
  columnsTotalWidth : Z;
  columnsToHide : option (list nat);   (* undefined until redraw assigns it *)
  diagnostics : list string;           (* the messages passed to this.error *)
}.

Definition set_availableWidth (w : number) (h : helper) : helper :=
  Helper (options h) (error h) (originalAvailableWidth h) (initWindowWidth h)
         (minWidths h) w (columnsTotalWidth h) (columnsToHide h) (diagnostics h).

Definition set_columnsToHide (c : option (list nat)) (h : helper) : helper :=
  Helper (options h) (error h) (originalAvailableWidth h) (initWindowWidth h)
         (minWidths h) (availableWidth h) (columnsTotalWidth h) c (diagnostics h).

Definition set_diagnostics (d : list string) (h : helper) : helper :=
  Helper (options h) (error h) (originalAvailableWidth h) (initWindowWidth h)
         (minWidths h) (availableWidth h) (columnsTotalWidth h) (columnsToHide h) d.

(** What [columnLabels[index]] reads.  [listen] replaces ["auto"] by a
    list; on an object on which [listen] has not run the option is still the
    string ["auto"], and indexing it gives its characters. *)
Definition labels_of (o : options_t) : list string :=
  match columnLabels o with
  | Labels l => l
  | LabelsAuto => ["a"; "u"; "t"; "o"]
  end.

(** ** The methods of [ResponsiveTableHelper.prototype] *)

Module ResponsiveTableHelper.

(** [hideColumns]: in every [tr] under the table, nested ones included, the
    cell at index [i] among the row's own cells is hidden when [i] is in
    [hideColumnIndexes] and shown otherwise. *)
Definition hide_or_show (hideColumnIndexes : list nat) (index : nat) (c : cell) : cell :=
  if decide (-1 ≠ indexOf hideColumnIndexes index) then hide c else show c.

Definition hideColumns_inner (hideColumnIndexes : list nat) (r : inner_tr) : inner_tr :=
  InnerTr (inner_shown r) (imap (hide_or_show hideColumnIndexes) (inner_cells r)).

Definition hideColumns_tr (hideColumnIndexes : list nat) (r : tr) : tr :=
  match r with
  | Tr expanded cells => Tr expanded (imap (hide_or_show hideColumnIndexes) cells)
  | SubTr shown inner =>
      SubTr (cell_shown (hide_or_show hideColumnIndexes 0%nat (Cell td "" shown)))
            (hideColumns_inner hideColumnIndexes <$> inner)
  end.

Definition hideColumns (hideColumnIndexes : list nat) (t : table) : table :=
  fmap (M:=list) (hideColumns_tr hideColumnIndexes) <$> t.

(** [jCells.eq(position)]: a negative position counts from the end. *)
Definition eq_index (n : nat) (position : Z) : option nat :=
  if decide (0 ≤ position) then
    (if decide (position < Z.of_nat n) then Some (Z.to_nat position) else None)
  else
    (if decide (0 ≤ Z.of_nat n + position) then Some (Z.to_nat (Z.of_nat n + position)) else None).

(** The new cell of one row: the clone of the first cell with its content
    replaced. *)
Definition new_cell (content : column_content) (jClone : cell) (row : list cell) : cell :=
  match content with
  | ContentString s => Cell (cell_tag jClone) s (cell_shown jClone)
  | ContentCallback f => f jClone row
  | ContentArray c0 c1 =>
      Cell (cell_tag jClone)
           (if decide (cell_tag jClone = th) then c0 else c1)
           (cell_shown jClone)
  end.

(** One turn of [addColumn]'s loop over the rows.  [position] is the
    function's parameter ([None] is [null]): the clamp assigns to it, so the
    value carries over to the rows that follow.  The clone of the first cell
    is put before the cell [jCells.eq(position)], or after the last cell,
    and then given its content; a callback sees the row with the clone in
    place.  A row without cells has nothing to clone, and a position that
    [eq] does not find leaves the clone out of the row. *)
Definition addColumn_tr (content : column_content) (position : option Z) (row : list cell)
  : option Z * list cell :=
  let nbColumns := Z.of_nat (length row) in
  let position :=
    if decide (default 0 position > nbColumns - 1) then Some (nbColumns - 1) else position in
  match row with
  | [] => (position, row)
  | jClone :: _ =>
      let place :=
        match position with
        | Some p => eq_index (length row) p
        | None => Some (length row)
        end in
      match place with
      | Some i =>
          let with_clone := take i row ++ jClone :: drop i row in
          (position, take i row ++ new_cell content jClone with_clone :: drop i row)
      | None => (position, row)
      end
  end.

Fixpoint addColumn_rows (content : column_content) (position : option Z) (rows : list (list cell))
  : option Z * list (list cell) :=
  match rows with
  | [] => (position, [])
  | row :: rest =>
      let '(position, row') := addColumn_tr content position row in
      let '(position, rest') := addColumn_rows content position rest in
      (position, row' :: rest')
  end.

Fixpoint addColumn_groups (content : column_content) (position : option Z) (m : markup)
  : option Z * markup :=
  match m with
  | [] => (position, [])
  | rows :: rest =>
      let '(position, rows') := addColumn_rows content position rows in
      let '(position, rest') := addColumn_groups content position rest in
      (position, rows' :: rest')
  end.

Definition addColumn (position : option Z) (content : column_content) (m : markup) : markup :=
  (addColumn_groups content position m).2.

(** [getColumnMinWidths]: index => outer width, over the cells of the first
    row. *)
Definition getColumnMinWidths (b : browser) (m : markup) : gmap nat Z :=
  list_to_map (imap (λ index _, (index, cell_outerWidth b index)) (default [] (head (concat m)))).

(** [removeByValue]: drop the first entry equal to [value]. *)
Definition removeByValue (arr : list nat) (value : nat) : list nat :=
  let index := indexOf arr value in
  if decide (index ≠ -1) then delete (Z.to_nat index) arr else arr.

Definition sum (arrObj : gmap nat Z) : Z :=
  foldl (λ sum kv, sum + kv.2) 0 (for_in arrObj).

(** *** redraw *)

(** The local variables of [redraw]'s [while] loop, and the messages it has
    passed to [this.error]. *)
Record locals := Locals {
  l_columnsTotalWidth : Z;
  l_columnsToShow : list nat;
  l_columnsToHide : list nat;
  l_reported : list string;
}.

Definition error_message (nextColumnToCollapse : nat) : string :=
  "The column with index " +:+ pretty nextColumnToCollapse +:+ " was not defined in minWidths.".

(** The [while] loop, by recursion on the copy of
    [collapsibleColumnIndexes] it shifts candidates off.  Calling
    [this.error] when the object has no such method is a [TypeError]. *)
Fixpoint collapse_loop (h : helper) (collapsibleColumnIndexes : list nat) (st : locals)
  : completion locals :=
  if num_lt (availableWidth h) (l_columnsTotalWidth st) then
    match collapsibleColumnIndexes with
    | [] => Normal st
    | nextColumnToCollapse :: rest =>
        let nextColumnToCollapse := (nextColumnToCollapse + 1)%nat in
        match minWidths h !! nextColumnToCollapse with
        | Some w =>
            collapse_loop h rest
              (Locals (l_columnsTotalWidth st - w)
                      (removeByValue (l_columnsToShow st) nextColumnToCollapse)
                      (l_columnsToHide st ++ [nextColumnToCollapse])
                      (l_reported st))
        | None =>
            match error h with
            | Undefined => Abrupt (TypeError "this.error is not a function") st
            | HostFunction =>
                collapse_loop h rest
                  (Locals (l_columnsTotalWidth st) (l_columnsToShow st) (l_columnsToHide st)
                          (l_reported st ++ [error_message nextColumnToCollapse]))
            end
        end
    end
  else Normal st.

(** [e - 1] looked up in the filter list: for [e = 0] it is [-1], which no
    list of indexes holds. *)
Definition filtered_out (expandedColumnFilterIndexes : list nat) (e : nat) : bool :=
  match e with
  | O => false
  | S i => bool_decide (-1 ≠ indexOf expandedColumnFilterIndexes i)
  end.

(** The toggle column rule: [columnsToHide.push(0)] unless a hidden column
    is left to expand. *)
Definition toggle_rule (expandedColumnFilterIndexes columnsToHide : list nat) : list nat :=
  let hasColumnsToExpand :=
    if decide (0%nat = length columnsToHide) then false
    else
      let columnsToHideCopy :=
        filter (λ e, filtered_out expandedColumnFilterIndexes e = false) columnsToHide in
      if decide (0%nat = length columnsToHideCopy) then false else true in
  if decide (false = hasColumnsToExpand) then columnsToHide ++ [0%nat] else columnsToHide.

(** The part of [redraw] that computes [columnsToHide]: the loop, then the
    toggle column rule.  Widths are whole pixels, on which the [parseInt]
    applied to [this.columnsTotalWidth] is the identity. *)
Definition computeHiddenColumns (h : helper) : completion (list nat * list string) :=
  let st0 := Locals (columnsTotalWidth h) ((for_in (minWidths h)).*1) [] [] in
  match collapse_loop h (collapsibleColumnIndexes (options h)) st0 with
  | Abrupt e st => Abrupt e (l_columnsToHide st, l_reported st)
  | Normal st =>
      Normal (toggle_rule (expandedColumnFilterIndexes (options h)) (l_columnsToHide st),
              l_reported st)
  end.

(** Whether the pair row at [index] of a sub-row is to be hidden, given a
    defined [columnsToHide]. *)
Definition pair_hidden (expandedColumnFilterIndexes columnsToHide : list nat) (index : nat) : bool :=
  bool_decide (-1 ≠ indexOf expandedColumnFilterIndexes index)
  || bool_decide (-1 = indexOf columnsToHide (index + 1)%nat).

(** "Now resize opened subrows". *)
Definition resize_sub_row (expandedColumnFilterIndexes columnsToHide : list nat) (r : tr) : tr :=
  match r with
  | Tr _ _ => r
  | SubTr shown inner =>
      SubTr shown
        (imap (λ index p,
                 InnerTr (negb (pair_hidden expandedColumnFilterIndexes columnsToHide index))
                         (inner_cells p))
              inner)
  end.

Definition redraw (h : helper) (t : table) : completion (helper * table) :=
  match computeHiddenColumns h with
  | Abrupt e (_, reported) => Abrupt e (set_diagnostics (diagnostics h ++ reported) h, t)
  | Normal (columnsToHide, reported) =>
      let h := set_columnsToHide (Some columnsToHide)
                 (set_diagnostics (diagnostics h ++ reported) h) in
      let t := hideColumns columnsToHide t in
      Normal (h, fmap (M:=list) (resize_sub_row (expandedColumnFilterIndexes (options h)) columnsToHide) <$> t)
  end.

(** *** The sub-rows *)

(** [jTr.next('tr')] is a sub-row. *)
Definition next_is_sub_row (siblings : list tr) (k : nat) : bool :=
  match siblings !! S k with
  | Some r => hasClass_sub_row r
  | None => false
  end.

(** The style of one pair row as [addSubRow] decides it.  The right operand
    of [||] reads [$this.columnsToHide.indexOf], a [TypeError] while
    [columnsToHide] is undefined. *)
Definition pair_style (h : helper) (index : nat) : exn + bool :=
  if decide (-1 ≠ indexOf (expandedColumnFilterIndexes (options h)) index) then inr true
  else
    match columnsToHide h with
    | None => inl (TypeError "Cannot read property 'indexOf' of undefined")
    | Some hidden => inr (bool_decide (-1 = indexOf hidden (index + 1)%nat))
    end.

Fixpoint build_pairs (h : helper) (index : nat) (cells : list cell) : exn + list inner_tr :=
  match cells with
  | [] => inr []
  | c :: rest =>
      match pair_style h index with
      | inl e => inl e
      | inr hidden =>
          let label := default "undefined" (labels_of (options h) !! index) in
          match build_pairs h (S index) rest with
          | inl e => inl e
          | inr pairs =>
              inr (InnerTr (negb hidden) [Cell td label true; Cell td (cell_html c) true] :: pairs)
          end
      end
  end.

(** [addSubRow] on the [k]-th row of the [g]-th group. *)
Definition addSubRow (h : helper) (t : table) (g k : nat) : completion table :=
  match t !! g with
  | None => Normal t
  | Some siblings =>
      match siblings !! k with
      | None => Normal t
      | Some jTr =>
          if next_is_sub_row siblings k then Normal t
          else
            match build_pairs h 0 (drop 1 (find_td jTr)) with
            | inl e => Abrupt e t
            | inr pairs =>
                Normal (<[g := take (S k) siblings ++ SubTr true pairs :: drop (S k) siblings]> t)
            end
      end
  end.

Definition removeSubRow (t : table) (g k : nat) : table :=
  match t !! g with
  | None => t
  | Some siblings =>
      if next_is_sub_row siblings k then <[g := delete (S k) siblings]> t else t
  end.

(** *** listen and the handlers it registers *)

Definition resolve_padding (p : padding_option) (minWidths : gmap nat Z) : padding_option :=
  match p with
  | PaddingAuto => foldl (λ _ kv, Padding kv.2) PaddingAuto (for_in minWidths)
  | Padding px => Padding px
  end.

Definition subtract_padding (w : Z) (p : padding_option) : number :=
  match p with
  | Padding px => Num (w - px)
  | PaddingAuto => NaN
  end.

Definition resolve_labels (b : browser) (o : options_t) (m : markup) : options_t :=
  match columnLabels o with
  | Labels _ => o
  | LabelsAuto =>
      Options (contentRowStartIndex o) (extraColumnContent o) (collapsibleColumnIndexes o)
              (expandedColumnFilterIndexes o)
              (Labels (cell_text b <$> default [] (head (concat m))))
              (padding o)
  end.

(** [listen] on the object built from [o], whose [error] slot holds
    [this_error].  [Normal] means the resize and click handlers are
    registered; when [redraw] throws, [listen] stops before registering
    them. *)
Definition listen (b : browser) (o : options_t) (this_error : method) (m : markup)
  : completion (helper * table) :=
  let o := resolve_labels b o m in
  let m := addColumn (Some 0) (extraColumnContent o) m in
  let minWidths := getColumnMinWidths b m in
  let original :=
    subtract_padding (container_outerWidth b) (resolve_padding (padding o) minWidths) in
  let h := Helper o this_error original (window_width b) minWidths original
                  (sum minWidths) None [] in
  let t : table := fmap (M:=list) (Tr false) <$> m in
  if num_lt (availableWidth h) (columnsTotalWidth h) then redraw h t
  else Normal (h, t).

(** The constructor: the prototype gives the object no [error]. *)
Definition new_listen (b : browser) (o : options_t) (m : markup) : completion (helper * table) :=
  listen b o Undefined m.

(** The window's resize handler; [windowNewSize] is [$(window).width()]. *)
Definition on_resize (windowNewSize : Z) (h : helper) (t : table) : completion (helper * table) :=
  let sizeOffset := initWindowWidth h - windowNewSize in
  redraw (set_availableWidth (num_sub (originalAvailableWidth h) sizeOffset) h) t.

Definition set_expanded (e : bool) (t : table) (g k : nat) : table :=
  match t !! g with
  | None => t
  | Some siblings =>
      match siblings !! k with
      | Some (Tr _ cells) => <[g := <[k := Tr e cells]> siblings]> t
      | _ => t
      end
  end.

(** The click handler of a toggle button in the [k]-th row of the [g]-th
    group. *)
Definition on_click (h : helper) (t : table) (g k : nat) : completion table :=
  match t !! g ≫= (.!! k) with
  | Some (Tr false _) => addSubRow h (set_expanded true t g k) g k
  | Some (Tr true _) => Normal (removeSubRow (set_expanded false t g k) g k)
  | _ => Normal t
  end.

End ResponsiveTableHelper.

Import ResponsiveTableHelper.

(** ** Vocabulary of the statements *)

(** The total [listen] stored is the sum of the measured widths. *)
Definition measured (h : helper) : Prop :=
  columnsTotalWidth h = sum (minWidths h).

(** The hidden-column list a layout pass computes, when it completes. *)
Definition hidden_columns (h : helper) : option (list nat) :=
  match computeHiddenColumns h with
  | Normal (columnsToHide, _) => Some columnsToHide
  | Abrupt _ _ => None
  end.

(** What a run of [redraw] stored in [columnsToHide]; nothing when it threw. *)
Definition computed (c : completion (helper * table)) : option (list nat) :=
  match c with
  | Normal (h, _) => columnsToHide h
  | Abrupt _ _ => None
  end.

(** The candidates of a consumed part of the priority list that were
    collapsed: shifted by one, those without a measured width left out. *)
Definition collapsed (minWidths : gmap nat Z) (consumed : list nat) : list nat :=
  filter (λ n, is_Some (minWidths !! n)) ((λ c, c + 1)%nat <$> consumed).

(** Column [column] (an index of the caller, before the shift) is in the
    hidden list the layout pass computes at available width [w]. *)
Definition hidden_at (h : helper) (w : number) (column : nat) : Prop :=
  ∃ H, hidden_columns (set_availableWidth w h) = Some H ∧ (column + 1)%nat ∈ H.

(** [A] stands at an earlier position of the list than [B]. *)
Definition precedes (A B : nat) (l : list nat) : Prop :=
  ∃ i j, (i < j)%nat ∧ l !! i = Some A ∧ l !! j = Some B.

(** [A] stands before the first occurrence of [B]. *)
Definition precedes_first (A B : nat) (l : list nat) : Prop :=
  ∃ l1 l2, l = l1 ++ A :: l2 ∧ B ∉ l1.

(** The candidates after the shift by one. *)
Definition shifted (l : list nat) : list nat := (λ c, c + 1)%nat <$> l.

(** The sum of the minimum widths of the columns no candidate names. *)
Definition nonCollapsibleWidth (h : helper) : Z :=
  sum (filter (λ kv : nat * Z, kv.1 ∉ shifted (collapsibleColumnIndexes (options h)))
              (minWidths h)).

(** The hidden list stored by a completed run holds exactly the members of
    [columns]. *)
Definition hidden_set_is (c : completion (helper * table)) (columns : list nat) : Prop :=
  ∃ H, computed c = Some H ∧ ∀ n, n ∈ H ↔ n ∈ columns.

(** The row at position [k] of the group [g]. *)
Definition row_at (t : table) (g k : nat) : option tr := t !! g ≫= (.!! k).

(** The number of rows of the table itself. *)
Definition row_count (t : table) : nat := length (concat t).

(** No two sub-rows are adjacent: no row is followed by two sub-rows. *)
Definition at_most_one_sub_row (t : table) : Prop :=
  ∀ g siblings k r1 r2,
    t !! g = Some siblings → siblings !! k = Some r1 → siblings !! S k = Some r2 →
    hasClass_sub_row r1 = true → hasClass_sub_row r2 = false.

(** The cells of a row obey the rule of [hideColumns] for the list
    [hidden]: the cell at index [i] is hidden if and only if [i] is listed. *)
Definition follows_rule (hidden : list nat) (cells : list cell) : Prop :=
  ∀ i c, cells !! i = Some c → (cell_shown c = false ↔ i ∈ hidden).

(** The pair row at [index] of a sub-row is displayed exactly when column
    [index + 1] is hidden and [index] is not filtered out. *)
Definition pair_rule (E H : list nat) (index : nat) (p : inner_tr) : Prop :=
  inner_shown p = true ↔ (index + 1)%nat ∈ H ∧ index ∉ E.

(** The cells of the first row of the table, the ones [listen] measures. *)
Definition first_row (m : markup) : list cell := default [] (head (concat m)).

(** The outer widths the browser reports for the first [n] cells of the
    first row, in column order. *)
Definition measured_widths (b : browser) (n : nat) : list Z :=
  cell_outerWidth b <$> seq 0 n.

(** The sum of a list of widths. *)
Definition total (widths : list Z) : Z := foldr Z.add 0 widths.

(** The minimum widths of the listed columns, added up; a column without a
    measured width counts for nothing. *)
Definition widths_of (minWidths : gmap nat Z) (columns : list nat) : Z :=
  total ((λ n, default 0 (minWidths !! n)) <$> columns).

(** The table with every display state erased: what is left is the rows,
    their classes, their cells and the content of the cells. *)
Definition undisplayed_tr (r : tr) : tr :=
  match r with
  | Tr expanded cells => Tr expanded (show <$> cells)
  | SubTr _ inner => SubTr true ((λ p, InnerTr true (show <$> inner_cells p)) <$> inner)
  end.

Definition undisplayed (t : table) : table :=
  fmap (M:=list) undisplayed_tr <$> t.

(** The header and content rows of the table, in document order. *)
Definition content_rows (t : table) : list tr :=
  filter (λ r, hasClass_sub_row r = false) (concat t).

(** A row with the new cell of [addColumn] put before its cell at index
    [i] (after the last cell when [i] is the length of the row). *)
Definition with_new_cell (content : column_content) (i : nat) (row : list cell) : list cell :=
  match row with
  | [] => []
  | jClone :: _ =>
      take i row ++ new_cell content jClone (take i row ++ jClone :: drop i row) :: drop i row
  end.

(** The positions [addColumn] finds a place for in every row that has a
    cell: [null], an index from 0 on, and [-1]. *)
Definition usable_position (position : option Z) : Prop :=
  match position with
  | None => True
  | Some p => -1 ≤ p
  end.

(** The minimum widths of the columns still shown once the listed columns
    are hidden. *)
Definition shown_after (minWidths : gmap nat Z) (hidden : list nat) : gmap nat Z :=
  foldr delete minWidths hidden.

(** ** Sample helpers *)

(** A helper as [listen] leaves it for a first row whose cells measure
    [widths], with no padding and [w] pixels available. *)
Definition sample_helper (this_error : method) (widths : list Z)
    (collapsible filter : list nat) (w : Z) : helper :=
  let minWidths : gmap nat Z := list_to_map (imap (λ index x, (index, x)) widths) in
  Helper (Options 0 (extraColumnContent _defaults) collapsible filter (Labels []) (Padding 0))
         this_error (Num w) 0 minWidths (Num w) (sum minWidths) None [].

(** The scenario of six columns, the toggle column included. *)
Definition scenario (this_error : method) (w : Z) : helper :=
  sample_helper this_error [40; 80; 80; 80; 80; 160] [5; 4; 3; 2; 1]%nat [] w.

(** A page: a header row and two content rows of five data columns, in a
    window 1200 pixels wide.  Once the toggle column is added the cells of
    the first row measure 40, 80, 80, 80, 80 and 160 pixels. *)
Definition sample_markup : markup :=
  [ [ [Cell th "#" true; Cell th "First" true; Cell th "Last" true;
       Cell th "Handle" true; Cell th "Pet" true] ];
    [ [Cell td "1" true; Cell td "Mark" true; Cell td "Otto" true;
       Cell td "@mdo" true; Cell td "Cat" true];
      [Cell td "2" true; Cell td "Jacob" true; Cell td "Thornton" true;
       Cell td "@fat" true; Cell td "Dog" true] ] ].

Definition sample_browser (container : Z) : browser :=
  Browser container 1200
          (λ index, default 0 ([40; 80; 80; 80; 80; 160] !! index))
          cell_html.

Definition sample_options (collapsible : list nat) : options_t :=
  Options 1 (ContentArray "" "<a class='rth-toggle-button' href=''>+</a>")
          collapsible [] LabelsAuto (Padding 0).

(** No cell of the table's own rows is hidden. *)
Definition all_shown (t : table) : bool :=
  forallb (λ r, match r with
                | Tr _ cells => forallb cell_shown cells
                | SubTr shown _ => shown
                end) (concat t).

(** ** Arrays and the loop *)

Lemma indexOf_lower (arr : list nat) (value : nat) : -1 ≤ indexOf arr value.
Proof.
  induction arr as [|x rest IH]; simpl; [lia|].
  destruct (decide (x = value)); [lia|].
  destruct (decide (indexOf rest value = -1)); lia.
Qed.

Lemma indexOf_found (arr : list nat) (value : nat) :
  -1 ≠ indexOf arr value ↔ value ∈ arr.
Proof.
  induction arr as [|x rest IH]; simpl.
  - split; [congruence | intros H; inversion H].
  - destruct (decide (x = value)) as [->|Hne].
    + split; [intros _; left | intros _; lia].
    + pose proof (indexOf_lower rest value) as Hlow.
      destruct (decide (indexOf rest value = -1)) as [Heq|Hneq].
      * split; [congruence|].
        intros Hin. apply elem_of_cons in Hin as [->|Hin]; [congruence|].
        apply IH in Hin. congruence.
      * split; [|lia].
        intros _. right. apply IH. congruence.
Qed.

Lemma indexOf_missing (arr : list nat) (value : nat) :
  -1 = indexOf arr value ↔ value ∉ arr.
Proof.
  rewrite <- indexOf_found. destruct (decide (-1 = indexOf arr value)); tauto.
Qed.

(** The equations of the loop, one per branch of the source. *)
Lemma collapse_loop_fits h queue st :
  num_lt (availableWidth h) (l_columnsTotalWidth st) = false →
  collapse_loop h queue st = Normal st.
Proof. intros Hfit. destruct queue; simpl; rewrite Hfit; reflexivity. Qed.

Lemma collapse_loop_exhausted h st : collapse_loop h [] st = Normal st.
Proof. simpl. destruct (num_lt _ _); reflexivity. Qed.

Lemma collapse_loop_hide h c queue st w :
  num_lt (availableWidth h) (l_columnsTotalWidth st) = true →
  minWidths h !! (c + 1)%nat = Some w →
  collapse_loop h (c :: queue) st =
  collapse_loop h queue
    (Locals (l_columnsTotalWidth st - w)
            (removeByValue (l_columnsToShow st) (c + 1)%nat)
            (l_columnsToHide st ++ [(c + 1)%nat])
            (l_reported st)).
Proof. intros Hlt Hw. simpl. rewrite Hlt, Hw. reflexivity. Qed.

Lemma collapse_loop_report h c queue st :
  num_lt (availableWidth h) (l_columnsTotalWidth st) = true →
  minWidths h !! (c + 1)%nat = None →
  error h = HostFunction →
  collapse_loop h (c :: queue) st =
  collapse_loop h queue
    (Locals (l_columnsTotalWidth st) (l_columnsToShow st) (l_columnsToHide st)
            (l_reported st ++ [error_message (c + 1)%nat])).
Proof. intros Hlt Hw He. simpl. rewrite Hlt, Hw, He. reflexivity. Qed.

Lemma collapse_loop_throw h c queue st :
  num_lt (availableWidth h) (l_columnsTotalWidth st) = true →
  minWidths h !! (c + 1)%nat = None →
  error h = Undefined →
  collapse_loop h (c :: queue) st = Abrupt (TypeError "this.error is not a function") st.
Proof. intros Hlt Hw He. simpl. rewrite Hlt, Hw, He. reflexivity. Qed.

(** A host [error] function makes the loop total: it never throws. *)
Lemma collapse_loop_total h queue st :
  error h = HostFunction → ∃ st', collapse_loop h queue st = Normal st'.
Proof.
  intros He. revert st. induction queue as [|c queue IH]; intros st.
  - eexists. apply collapse_loop_exhausted.
  - destruct (num_lt (availableWidth h) (l_columnsTotalWidth st)) eqn:Hlt.
    + destruct (minWidths h !! (c + 1)%nat) as [w|] eqn:Hw.
      * rewrite (collapse_loop_hide _ _ _ _ w) by assumption. apply IH.
      * rewrite collapse_loop_report by assumption. apply IH.
    + eexists. apply collapse_loop_fits. assumption.
Qed.

(** What the loop has hidden when it ends: the measured candidates of the
    part of the list it consumed, in list order. *)
Lemma collapse_loop_consumed h queue st st' :
  collapse_loop h queue st = Normal st' →
  ∃ consumed rest,
    queue = consumed ++ rest ∧
    l_columnsToHide st' = l_columnsToHide st ++ collapsed (minWidths h) consumed.
Proof.
  revert st. induction queue as [|c queue IH]; intros st Hrun.
  - rewrite collapse_loop_exhausted in Hrun. injection Hrun as <-.
    exists [], []. split; [reflexivity|]. unfold collapsed. simpl. by rewrite app_nil_r.
  - destruct (num_lt (availableWidth h) (l_columnsTotalWidth st)) eqn:Hlt.
    + destruct (minWidths h !! (c + 1)%nat) as [w|] eqn:Hw.
      * rewrite (collapse_loop_hide _ _ _ _ w) in Hrun by assumption.
        apply IH in Hrun as (consumed & rest & -> & Hhide).
        exists (c :: consumed), rest. split; [reflexivity|].
        rewrite Hhide. simpl. unfold collapsed. rewrite fmap_cons, filter_cons_True by eauto.
        by rewrite <- app_assoc.
      * destruct (error h) eqn:He.
        -- rewrite collapse_loop_throw in Hrun by assumption. discriminate.
        -- rewrite collapse_loop_report in Hrun by assumption.
           apply IH in Hrun as (consumed & rest & -> & Hhide).
           exists (c :: consumed), rest. split; [reflexivity|].
           rewrite Hhide. simpl. unfold collapsed. rewrite fmap_cons, filter_cons_False; [done|].
           rewrite Hw. by intros [? ?].
    + rewrite collapse_loop_fits in Hrun by assumption. injection Hrun as <-.
      exists [], (c :: queue). split; [reflexivity|]. unfold collapsed. simpl. by rewrite app_nil_r.
Qed.

Lemma elem_of_collapsed minWidths consumed n :
  n ∈ collapsed minWidths consumed ↔
  is_Some (minWidths !! n) ∧ ∃ c, n = (c + 1)%nat ∧ c ∈ consumed.
Proof.
  unfold collapsed. rewrite list_elem_of_filter, list_elem_of_fmap. reflexivity.
Qed.

(** The toggle column rule adds nothing but index 0. *)
Lemma elem_of_toggle_rule E columnsToHide n :
  n ∈ toggle_rule E columnsToHide → n = 0%nat ∨ n ∈ columnsToHide.
Proof.
  unfold toggle_rule. case_decide; [|auto].
  rewrite elem_of_app, list_elem_of_singleton. tauto.
Qed.

Lemma toggle_rule_keeps E columnsToHide n :
  n ∈ columnsToHide → n ∈ toggle_rule E columnsToHide.
Proof.
  unfold toggle_rule. case_decide; [|auto].
  rewrite elem_of_app. auto.
Qed.

(** [redraw] stores exactly what [computeHiddenColumns] returns. *)
Lemma computed_redraw h t : computed (redraw h t) = hidden_columns h.
Proof.
  unfold computed, redraw, hidden_columns.
  destruct (computeHiddenColumns h) as [[H log]|e [H log]]; reflexivity.
Qed.

(** The hidden list of a completed pass, read off the priority list. *)
Lemma hidden_columns_consumed h H :
  hidden_columns h = Some H →
  ∃ consumed rest,
    collapsibleColumnIndexes (options h) = consumed ++ rest ∧
    H = toggle_rule (expandedColumnFilterIndexes (options h)) (collapsed (minWidths h) consumed).
Proof.
  unfold hidden_columns, computeHiddenColumns.
  destruct (collapse_loop _ _ _) as [st|e st] eqn:Hrun; [|discriminate].
  intros [= <-].
  apply collapse_loop_consumed in Hrun as (consumed & rest & Hq & Hhide).
  exists consumed, rest. split; [assumption|]. rewrite Hhide. reflexivity.
Qed.

Lemma collapse_loop_ext h1 h2 queue st :
  availableWidth h1 = availableWidth h2 →
  minWidths h1 = minWidths h2 →
  error h1 = error h2 →
  collapse_loop h1 queue st = collapse_loop h2 queue st.
Proof.
  intros Ha Hm He. revert st.
  induction queue as [|c queue IH]; intros st; simpl; rewrite Ha; [reflexivity|].
  rewrite Hm, He.
  destruct (num_lt _ _); [|reflexivity].
  destruct (minWidths h2 !! _); [apply IH|].
  destruct (error h2); [reflexivity | apply IH].
Qed.

(** The pass reads the available width, the measured widths with their
    total, the two option lists and the [error] slot, and nothing else. *)
Lemma computeHiddenColumns_ext h1 h2 :
  columnsTotalWidth h1 = columnsTotalWidth h2 →
  error h1 = error h2 →
  availableWidth h1 = availableWidth h2 →
  minWidths h1 = minWidths h2 →
  collapsibleColumnIndexes (options h1) = collapsibleColumnIndexes (options h2) →
  expandedColumnFilterIndexes (options h1) = expandedColumnFilterIndexes (options h2) →
  computeHiddenColumns h1 = computeHiddenColumns h2.
Proof.
  intros Ht He Ha Hm Hc Hf. unfold computeHiddenColumns.
  rewrite Ht, Hm, Hc, Hf.
  rewrite (collapse_loop_ext h1 h2) by assumption. reflexivity.
Qed.

Lemma before_first_consumed (consumed rest l1 l2 : list nat) A B :
  consumed ++ rest = l1 ++ A :: l2 → B ∈ consumed → B ∉ l1 → A ∈ consumed.
Proof.
  revert consumed. induction l1 as [|y l1 IH]; intros consumed Heq HB Hfirst.
  - destruct consumed as [|x consumed]; [inversion HB|].
    simpl in Heq. injection Heq as -> _. left.
  - destruct consumed as [|x consumed]; [inversion HB|].
    simpl in Heq. injection Heq as -> Heq.
    apply elem_of_cons in HB as [->|HB].
    + exfalso. apply Hfirst. left.
    + right. apply (IH consumed Heq HB). intros Hin. apply Hfirst. by right.
Qed.

(** In a list without repetition, an earlier position is a position before
    the first occurrence. *)
Lemma precedes_NoDup A B (l : list nat) :
  NoDup l → precedes A B l → precedes_first A B l.
Proof.
  intros Hnd (i & j & Hij & Hi & Hj).
  exists (take i l), (drop (S i) l). split.
  - symmetry. by apply take_drop_middle.
  - intros Hin. apply list_elem_of_lookup in Hin as [k Hk].
    pose proof (lookup_lt_Some _ _ _ Hk) as Hlen. rewrite length_take in Hlen.
    rewrite lookup_take_lt in Hk by lia.
    assert (k = j) by (eapply NoDup_lookup; eauto). lia.
Qed.

(** ** The layout pass *)

(** C5: with an empty collapse-priority list, whatever the available width,
    the layout pass completes and the hidden list it stores is exactly
    [[0]], the toggle column; no data column is hidden. *)
Theorem redraw_empty_priority_list (h : helper) (t : table) :
  collapsibleColumnIndexes (options h) = [] →
  ∃ h' t', redraw h t = Normal (h', t')
           ∧ columnsToHide h' = Some [0%nat]
           ∧ hidden_set_is (redraw h t) [0%nat].
Proof.
  intros Hempty.
  assert (Hc : computeHiddenColumns h = Normal ([0%nat], [])).
  { unfold computeHiddenColumns. rewrite Hempty, collapse_loop_exhausted. reflexivity. }
  unfold hidden_set_is, redraw. rewrite Hc. simpl.
  do 2 eexists. split; [reflexivity|]. split; [reflexivity|].
  exists [0%nat]. split; [reflexivity | tauto].
Qed.

Lemma redraw_empty_priority_list_witness :
  ∃ h' t', redraw (sample_helper Undefined [40; 80; 80] [] [] 10) [] = Normal (h', t')
           ∧ columnsToHide h' = Some [0%nat]
           ∧ hidden_set_is (redraw (sample_helper Undefined [40; 80; 80] [] [] 10) []) [0%nat].
Proof. apply (redraw_empty_priority_list (sample_helper Undefined [40; 80; 80] [] [] 10) []). reflexivity. Defined.

(** C7: the layout pass is memoryless and idempotent.  Two helpers with the
    same available width, measured widths, priority list and filter list
    (and the same [error] slot) compute the same hidden list, whatever
    hidden list either stored before and whatever the tables; and running
    the pass again on the state a completed pass left gives the same list. *)
Theorem redraw_memoryless (h1 h2 : helper) (t1 t2 : table) :
  measured h1 → measured h2 →
  error h1 = error h2 →
  availableWidth h1 = availableWidth h2 →
  minWidths h1 = minWidths h2 →
  collapsibleColumnIndexes (options h1) = collapsibleColumnIndexes (options h2) →
  expandedColumnFilterIndexes (options h1) = expandedColumnFilterIndexes (options h2) →
  computed (redraw h1 t1) = computed (redraw h2 t2)
  ∧ ∀ h1' t1', redraw h1 t1 = Normal (h1', t1') →
               measured h1' ∧ computed (redraw h1' t1') = computed (redraw h1 t1).
Proof.
  unfold measured. intros Hm1 Hm2 He Ha Hm Hc Hf. split.
  - rewrite !computed_redraw. unfold hidden_columns.
    rewrite (computeHiddenColumns_ext h1 h2); [reflexivity|congruence|done..].
  - intros h1' t1' Hrun. unfold redraw in Hrun.
    destruct (computeHiddenColumns h1) as [[H log]|e [H log]] eqn:Hc1; [|discriminate].
    injection Hrun as <- _. split; [exact Hm1|].
    rewrite !computed_redraw. unfold hidden_columns.
    rewrite (computeHiddenColumns_ext _ h1) by reflexivity. reflexivity.
Qed.

Lemma redraw_memoryless_witness :
  computed (redraw (set_columnsToHide (Some [3%nat; 1%nat]) (scenario HostFunction 300)) [])
  = computed (redraw (scenario HostFunction 300) [[Tr false []]])
  ∧ ∀ h1' t1',
      redraw (set_columnsToHide (Some [3%nat; 1%nat]) (scenario HostFunction 300)) [] = Normal (h1', t1') →
      measured h1' ∧
      computed (redraw h1' t1')
      = computed (redraw (set_columnsToHide (Some [3%nat; 1%nat]) (scenario HostFunction 300)) []).
Proof.
  apply (redraw_memoryless
           (set_columnsToHide (Some [3%nat; 1%nat]) (scenario HostFunction 300))
           (scenario HostFunction 300) [] [[Tr false []]]); reflexivity.
Defined.

(** The claim of C6 as worded fails: on a table that fits, the pass stores
    [[0]], and the toggle column 0 is the shift of no candidate. *)
Lemma toggle_column_is_no_candidate :
  ¬ (∀ (h : helper) (t : table) (w : Z) (H : list nat) (n : nat),
        availableWidth h = Num w → nonCollapsibleWidth h ≤ w →
        computed (redraw h t) = Some H → n ∈ H →
        n ∈ shifted (collapsibleColumnIndexes (options h))).
Proof.
  intros Hclaim.
  specialize (Hclaim (sample_helper Undefined [40; 80] [0%nat] [] 1000) [] 1000
                     [0%nat] 0%nat eq_refl).
  assert (Hin : 0%nat ∈ shifted [0%nat]).
  { apply Hclaim; [by vm_compute | reflexivity | left]. }
  unfold shifted in Hin. simpl in Hin.
  apply list_elem_of_singleton in Hin. discriminate.
Qed.

(** C6, amended: at an available width no smaller than the sum of the
    minimum widths of the columns outside the priority list, every index in
    the hidden list the pass stores is the toggle column 0 or the shifted
    index of a member of the priority list.  (The bound on the width is not
    used: the same holds at every width.) *)
Theorem hidden_columns_are_candidates (h : helper) (t : table) (w : Z) (H : list nat) (n : nat) :
  availableWidth h = Num w → nonCollapsibleWidth h ≤ w →
  computed (redraw h t) = Some H → n ∈ H →
  n = 0%nat ∨ n ∈ shifted (collapsibleColumnIndexes (options h)).
Proof.
  intros _ _ Hrun Hn. rewrite computed_redraw in Hrun.
  apply hidden_columns_consumed in Hrun as (consumed & rest & Hq & ->).
  apply elem_of_toggle_rule in Hn as [->|Hn]; [by left|]. right.
  apply elem_of_collapsed in Hn as (_ & c & -> & Hc).
  unfold shifted. rewrite Hq, fmap_app, elem_of_app. left.
  apply list_elem_of_fmap. eauto.
Qed.

Lemma hidden_columns_are_candidates_witness :
  5%nat = 0%nat ∨ 5%nat ∈ shifted (collapsibleColumnIndexes (options (scenario HostFunction 400))).
Proof.
  apply (hidden_columns_are_candidates (scenario HostFunction 400) [] 400 [5%nat] 5%nat).
  - reflexivity.
  - by vm_compute.
  - reflexivity.
  - left.
Defined.

(** The claim of C3 as worded fails on a priority list that names a column
    twice: in [[0; 1; 0]] column 1 stands before the second 0, both are
    hidden at width 0, and at width 150 only column 0 is. *)
Lemma repeated_candidate_breaks_order :
  ¬ (∀ (h : helper) (A B : nat) (wA wB w : number),
        precedes A B (collapsibleColumnIndexes (options h)) →
        hidden_at h wA A → hidden_at h wB B →
        hidden_at h w B → hidden_at h w A).
Proof.
  intros Hclaim.
  pose (h := sample_helper Undefined [40; 80; 80] [0; 1; 0]%nat [] 0).
  assert (Hlow : ∀ c, c ∈ [0; 1]%nat → hidden_at h (Num 0) c).
  { intros c Hc. exists [1; 2; 1]%nat. split; [reflexivity|].
    apply elem_of_cons in Hc as [->|Hc]; [left|].
    apply list_elem_of_singleton in Hc as ->. right; left. }
  destruct (Hclaim h 1%nat 0%nat (Num 0) (Num 0) (Num 150)) as (H & Hrun & Hin).
  - exists 1%nat, 2%nat. repeat split. lia.
  - apply Hlow. right; left.
  - apply Hlow. left.
  - exists [1%nat]. split; [reflexivity | left].
  - vm_compute in Hrun. injection Hrun as <-.
    simpl in Hin. apply list_elem_of_singleton in Hin. discriminate.
Qed.

(** C3, amended: if [A] stands in the priority list before the first
    occurrence of [B] (on a list without repetition: if [A] precedes [B]),
    and each of them is hidden at some available width, then [A] is hidden
    at every available width at which [B] is. *)
Theorem collapse_follows_priority (h : helper) (A B : nat) (wA wB w : number) :
  precedes_first A B (collapsibleColumnIndexes (options h)) →
  hidden_at h wA A → hidden_at h wB B →
  hidden_at h w B → hidden_at h w A.
Proof.
  intros (l1 & l2 & Hlist & Hfirst) (HA & HrunA & HinA) _ (H & Hrun & HinB).
  (* [A] has a measured width, since some pass collapsed it *)
  assert (Hmeasured : is_Some (minWidths h !! (A + 1)%nat)).
  { apply hidden_columns_consumed in HrunA as (consumed & rest & _ & ->).
    apply elem_of_toggle_rule in HinA as [?|HinA]; [lia|].
    by apply elem_of_collapsed in HinA as [? _]. }
  exists H. split; [assumption|].
  apply hidden_columns_consumed in Hrun as (consumed & rest & Hq & ->).
  simpl in Hq.
  apply elem_of_toggle_rule in HinB as [?|HinB]; [lia|].
  apply elem_of_collapsed in HinB as (_ & c & Hc & HB).
  assert (c = B) as -> by lia.
  apply toggle_rule_keeps, elem_of_collapsed. split; [assumption|].
  exists A. split; [reflexivity|].
  rewrite Hlist in Hq. symmetry in Hq. eapply before_first_consumed; eauto.
Qed.

Lemma collapse_follows_priority_witness :
  hidden_at (sample_helper Undefined [40; 80; 80] [1; 0]%nat [] 0) (Num 50) 1%nat.
Proof.
  apply (collapse_follows_priority (sample_helper Undefined [40; 80; 80] [1; 0]%nat [] 0)
           1%nat 0%nat (Num 150) (Num 50) (Num 50)).
  - exists [], [0%nat]. split; [reflexivity|]. intros Hin. inversion Hin.
  - exists [2%nat]. split; [reflexivity | left].
  - exists [2; 1]%nat. split; [reflexivity | right; left].
  - exists [2; 1]%nat. split; [reflexivity | right; left].
Defined.

Lemma num_lt_Num (w z : Z) : w < z → num_lt (Num w) z = true.
Proof. intros Hlt. unfold num_lt. by apply bool_decide_eq_true. Qed.

Lemma num_lt_Num_ge (w z : Z) : z ≤ w → num_lt (Num w) z = false.
Proof. intros Hge. unfold num_lt. apply bool_decide_eq_false. lia. Qed.

(** The claim of C4 as worded fails.  The six measured columns have the
    indexes 0 to 5, so the first candidate, 5, shifts to 6 and has no
    measured width.  On the object the constructor builds the pass throws
    and stores nothing; with an [error] function in place it stores
    [[5; 4]]. *)
Lemma scenario_does_not_hide_column_6 :
  ¬ hidden_set_is (redraw (scenario Undefined 300) []) [6%nat]
  ∧ ¬ hidden_set_is (redraw (scenario HostFunction 300) []) [6%nat].
Proof.
  split; intros (H & Hrun & Hiff).
  - vm_compute in Hrun. discriminate.
  - vm_compute in Hrun. injection Hrun as <-.
    assert (Hin : 6%nat ∈ [5; 4]%nat) by (apply Hiff; left).
    apply elem_of_cons in Hin as [?|Hin]; [lia|].
    apply list_elem_of_singleton in Hin. lia.
Qed.

(** C4, amended: in the scenario, with an [error] function in place, at
    every available width [w] with [280 <= w < 360] the pass reports the
    candidate 5 (shifted index 6, no measured width), skips it, and hides
    exactly the columns 5 and 4, the shifted indexes of the data columns 4
    and 3. *)
Theorem scenario_hides_columns_5_and_4 (w : Z) (t : table) :
  280 ≤ w < 360 →
  computeHiddenColumns (scenario HostFunction w)
  = Normal ([5; 4]%nat, ["The column with index 6 was not defined in minWidths."])
  ∧ hidden_set_is (redraw (scenario HostFunction w) t) [5; 4]%nat.
Proof.
  intros Hw.
  assert (Hc : computeHiddenColumns (scenario HostFunction w)
               = Normal ([5; 4]%nat, ["The column with index 6 was not defined in minWidths."])).
  { unfold computeHiddenColumns.
    set (h := scenario HostFunction w).
    assert (Ha : availableWidth h = Num w) by reflexivity.
    change (collapsibleColumnIndexes (options h)) with [5; 4; 3; 2; 1]%nat.
    change (expandedColumnFilterIndexes (options h)) with (@nil nat).
    replace (columnsTotalWidth h) with 520 by reflexivity.
    rewrite collapse_loop_report;
      [ | rewrite Ha; apply num_lt_Num; simpl; lia | reflexivity | reflexivity ].
    rewrite (collapse_loop_hide h 4 _ _ 160);
      [ | rewrite Ha; apply num_lt_Num; simpl; lia | reflexivity ].
    rewrite (collapse_loop_hide h 3 _ _ 80);
      [ | rewrite Ha; apply num_lt_Num; simpl; lia | reflexivity ].
    rewrite collapse_loop_fits;
      [ | rewrite Ha; apply num_lt_Num_ge; simpl; lia ].
    reflexivity. }
  split; [exact Hc|].
  exists [5; 4]%nat. split; [|tauto].
  rewrite computed_redraw. unfold hidden_columns. rewrite Hc. reflexivity.
Qed.

Lemma scenario_hides_columns_5_and_4_witness :
  computeHiddenColumns (scenario HostFunction 300)
  = Normal ([5; 4]%nat, ["The column with index 6 was not defined in minWidths."])
  ∧ hidden_set_is (redraw (scenario HostFunction 300) []) [5; 4]%nat.
Proof. apply (scenario_hides_columns_5_and_4 300 []). lia. Defined.

(** With an [error] function in place the claim of C2 holds: a candidate
    without a measured width is reported and skipped, the loop goes on with
    the candidates that follow, and the pass completes. *)
Lemma unmeasured_candidate_skipped h c queue st :
  error h = HostFunction →
  num_lt (availableWidth h) (l_columnsTotalWidth st) = true →
  minWidths h !! (c + 1)%nat = None →
  ∃ st', collapse_loop h (c :: queue) st = Normal st'
         ∧ collapse_loop h queue
             (Locals (l_columnsTotalWidth st) (l_columnsToShow st) (l_columnsToHide st)
                     (l_reported st ++ [error_message (c + 1)%nat])) = Normal st'.
Proof.
  intros He Hlt Hw. rewrite collapse_loop_report by assumption.
  destruct (collapse_loop_total h queue
              (Locals (l_columnsTotalWidth st) (l_columnsToShow st) (l_columnsToHide st)
                      (l_reported st ++ [error_message (c + 1)%nat])) He) as [st' Hst'].
  exists st'. rewrite Hst'. split; reflexivity.
Qed.

(** C2, on the code: the prototype defines no [error] method, so reporting
    a candidate without a measured width is a [TypeError].  At
    initialization it aborts [listen] before any hidden list is stored (and
    before the handlers are registered); in the resize handler it aborts
    [redraw], leaving the hidden list of the pass before.  The candidates
    4, 3, 2, 1 that follow the offending one are never looked at. *)
Theorem unmeasured_candidate_throws :
  (∃ h t, new_listen (sample_browser 300) (sample_options [5; 4; 3; 2; 1]%nat) sample_markup
          = Abrupt (TypeError "this.error is not a function") (h, t)
          ∧ columnsToHide h = None ∧ diagnostics h = [] ∧ all_shown t = true)
  ∧ (∃ h t, new_listen (sample_browser 1000) (sample_options [5; 4; 3; 2; 1]%nat) sample_markup
            = Normal (h, t)
            ∧ on_resize 500 h t = Abrupt (TypeError "this.error is not a function")
                                         (set_availableWidth (Num 300) h, t)).
Proof.
  split.
  - do 2 eexists. split; [vm_compute; reflexivity|]. repeat split.
  - do 2 eexists. split; [vm_compute; reflexivity|]. reflexivity.
Qed.

(** C9, on the code: [listen] runs the layout pass only when the table does
    not fit.  On a table that fits it stores no hidden list and leaves the
    toggle column shown; a click on a toggle button then throws, since
    [addSubRow] reads the hidden list.  The resize handler runs the pass
    unconditionally: a resize notification at the unchanged window width
    stores [[0]] and hides the toggle column. *)
Theorem listen_skips_redraw_when_table_fits :
  ∃ h t, new_listen (sample_browser 1000) (sample_options [4; 3; 2; 1; 0]%nat) sample_markup
         = Normal (h, t)
         ∧ columnsToHide h = None
         ∧ all_shown t = true
         ∧ (∃ t', on_click h t 1 0
                  = Abrupt (TypeError "Cannot read property 'indexOf' of undefined") t')
         ∧ (∃ h' t', on_resize 1200 h t = Normal (h', t')
                     ∧ columnsToHide h' = Some [0%nat]
                     ∧ all_shown t' = false).
Proof.
  do 2 eexists. split; [vm_compute; reflexivity|].
  split; [reflexivity|]. split; [reflexivity|]. split.
  - eexists. vm_compute. reflexivity.
  - do 2 eexists. split; [vm_compute; reflexivity|]. split; reflexivity.
Qed.

(** The resize handler always runs the pass: it completes and stores a
    hidden list whenever the [error] slot holds a function. *)
Lemma on_resize_runs_redraw windowNewSize h t :
  error h = HostFunction →
  ∃ h' t' H, on_resize windowNewSize h t = Normal (h', t') ∧ columnsToHide h' = Some H.
Proof.
  intros He. unfold on_resize, redraw, computeHiddenColumns.
  set (h0 := set_availableWidth _ h).
  destruct (collapse_loop_total h0 (collapsibleColumnIndexes (options h0))
              (Locals (columnsTotalWidth h0) ((for_in (minWidths h0)).*1) [] []) He)
    as [st Hst].
  rewrite Hst. do 3 eexists. split; reflexivity.
Qed.

(** ** The table operations *)

Lemma hide_or_show_shown hidden index c :
  cell_shown (hide_or_show hidden index c) = false ↔ index ∈ hidden.
Proof.
  unfold hide_or_show. rewrite <- indexOf_found.
  destruct (decide (-1 ≠ indexOf hidden index)); simpl; split; intros; done.
Qed.

Lemma follows_rule_imap hidden cells :
  follows_rule hidden (imap (hide_or_show hidden) cells).
Proof.
  intros i c Hi. rewrite list_lookup_imap in Hi.
  destruct (cells !! i) as [c0|]; [|discriminate].
  injection Hi as <-. apply hide_or_show_shown.
Qed.

Lemma row_at_hideColumns hidden (t : table) g k :
  row_at (hideColumns hidden t) g k = hideColumns_tr hidden <$> row_at t g k.
Proof.
  unfold row_at, hideColumns. rewrite list_lookup_fmap.
  destruct (t !! g) as [siblings|]; [|reflexivity].
  simpl. apply list_lookup_fmap.
Qed.

(** C10: [hideColumns] treats every row of the table alike, header rows,
    content rows and sub-rows with the rows nested in them: the row stays
    in place with as many cells, and its cell at index [i] is hidden if and
    only if [i] is in the list.  So when the list holds 0, the one cell of
    every sub-row, which holds the whole detail view, is hidden. *)
Theorem hideColumns_uniform (hideColumnIndexes : list nat) (t : table) (g k : nat) (r0 : tr) :
  row_at t g k = Some r0 →
  ∃ r, row_at (hideColumns hideColumnIndexes t) g k = Some r
       ∧ hasClass_sub_row r = hasClass_sub_row r0
       ∧ length (own_cells r) = length (own_cells r0)
       ∧ follows_rule hideColumnIndexes (own_cells r)
       ∧ (∀ p, p ∈ inner_rows r → follows_rule hideColumnIndexes (inner_cells p))
       ∧ (0%nat ∈ hideColumnIndexes →
          ∀ shown inner, r = SubTr shown inner → shown = false).
Proof.
  intros Hrow. exists (hideColumns_tr hideColumnIndexes r0).
  split; [by rewrite row_at_hideColumns, Hrow|].
  destruct r0 as [expanded cells|shown0 inner0]; simpl.
  - split; [reflexivity|]. split; [apply length_imap|].
    split; [apply follows_rule_imap|]. split.
    + intros p Hp. inversion Hp.
    + intros _ shown inner Heq. discriminate.
  - split; [reflexivity|]. split; [reflexivity|]. split.
    + intros i c Hi. destruct i as [|i]; [|discriminate].
      injection Hi as <-. simpl. apply (hide_or_show_shown _ 0%nat (Cell td "" shown0)).
    + split.
      * intros p Hp. apply list_elem_of_fmap in Hp as (p0 & -> & _).
        apply follows_rule_imap.
      * intros Hzero shown inner [= <- _].
        by apply (hide_or_show_shown _ 0%nat (Cell td "" shown0)).
Qed.

Lemma hideColumns_uniform_witness :
  ∃ r, row_at (hideColumns [0%nat; 3%nat]
                 [[Tr true [Cell td "+" true; Cell td "a" true];
                   SubTr true [InnerTr true [Cell td "A" true; Cell td "a" true]]]]) 0 1
       = Some r
       ∧ hasClass_sub_row r = true
       ∧ length (own_cells r) = 1%nat
       ∧ follows_rule [0%nat; 3%nat] (own_cells r)
       ∧ (∀ p, p ∈ inner_rows r → follows_rule [0%nat; 3%nat] (inner_cells p))
       ∧ (0%nat ∈ [0%nat; 3%nat] → ∀ shown inner, r = SubTr shown inner → shown = false).
Proof.
  apply (hideColumns_uniform [0%nat; 3%nat]
           [[Tr true [Cell td "+" true; Cell td "a" true];
             SubTr true [InnerTr true [Cell td "A" true; Cell td "a" true]]]] 0 1
           (SubTr true [InnerTr true [Cell td "A" true; Cell td "a" true]])).
  reflexivity.
Defined.

Lemma pair_hidden_rule E H index :
  negb (pair_hidden E H index) = true ↔ (index + 1)%nat ∈ H ∧ index ∉ E.
Proof.
  unfold pair_hidden.
  rewrite negb_true_iff, orb_false_iff, !bool_decide_eq_false.
  rewrite indexOf_found, indexOf_missing.
  split; [intros [HE HH] | intros [HH HE]]; split; auto.
  destruct (decide ((index + 1)%nat ∈ H)); tauto.
Qed.

(** Once a pass has stored a hidden list, [addSubRow] styles a pair row as
    [redraw] does when it revisits it. *)
Lemma pair_style_defined h H index :
  columnsToHide h = Some H →
  pair_style h index = inr (pair_hidden (expandedColumnFilterIndexes (options h)) H index).
Proof.
  intros HH. unfold pair_style, pair_hidden. rewrite HH.
  destruct (decide (-1 ≠ indexOf (expandedColumnFilterIndexes (options h)) index)) as [Hin|Hout].
  - by rewrite bool_decide_eq_true_2.
  - by rewrite (bool_decide_eq_false_2 _ Hout).
Qed.

Lemma build_pairs_defined h H index cells :
  columnsToHide h = Some H →
  ∃ pairs,
    build_pairs h index cells = inr pairs
    ∧ length pairs = length cells
    ∧ ∀ i p, pairs !! i = Some p →
        pair_rule (expandedColumnFilterIndexes (options h)) H (index + i) p
        ∧ ∃ c, cells !! i = Some c
               ∧ inner_cells p =
                 [Cell td (default "undefined" (labels_of (options h) !! (index + i)%nat)) true;
                  Cell td (cell_html c) true].
Proof.
  intros HH. revert index. induction cells as [|c cells IH]; intros index.
  - exists []. split; [reflexivity|]. split; [reflexivity|]. intros i p Hi. discriminate.
  - destruct (IH (S index)) as (pairs & Hbuild & Hlen & Hpairs).
    eexists. simpl. rewrite (pair_style_defined h H) by assumption. rewrite Hbuild.
    split; [reflexivity|]. split; [simpl; by rewrite Hlen|].
    intros [|i] p Hi.
    + injection Hi as <-. rewrite Nat.add_0_r. split.
      * unfold pair_rule. simpl. apply pair_hidden_rule.
      * exists c. split; reflexivity.
    + simpl in Hi. apply Hpairs in Hi as [Hrule Hcells].
      replace (index + S i)%nat with (S index + i)%nat by lia. auto.
Qed.

(** Inserting a row after position [k]. *)
Lemma lookup_insert_after {A} (s : list A) (k : nat) (x : A) (j : nat) :
  (k < length s)%nat →
  (take (S k) s ++ x :: drop (S k) s) !! j =
  if decide (j ≤ k)%nat then s !! j
  else if decide (j = S k) then Some x else s !! (j - 1)%nat.
Proof.
  intros Hk.
  assert (Hlen : length (take (S k) s) = S k) by (rewrite length_take; lia).
  destruct (decide (j ≤ k)%nat).
  - rewrite lookup_app_l by lia. apply lookup_take_lt. lia.
  - rewrite lookup_app_r by lia. rewrite Hlen.
    destruct (decide (j = S k)) as [->|Hne].
    + by rewrite Nat.sub_diag.
    + destruct (j - S k)%nat as [|d] eqn:Hd; [lia|]. simpl.
      rewrite lookup_drop. f_equal. lia.
Qed.

Lemma row_count_insert (t : table) g (siblings siblings' : list tr) :
  t !! g = Some siblings →
  (row_count (<[g := siblings']> t) + length siblings = row_count t + length siblings')%nat.
Proof.
  unfold row_count. revert g. induction t as [|s0 t IH]; intros g Hg; [discriminate|].
  destruct g as [|g]; simpl in *.
  - injection Hg as ->. rewrite !length_app. lia.
  - rewrite !length_app. specialize (IH g Hg). lia.
Qed.

Lemma next_is_sub_row_inserted (siblings : list tr) k shown inner :
  (k < length siblings)%nat →
  next_is_sub_row (take (S k) siblings ++ SubTr shown inner :: drop (S k) siblings) k = true.
Proof.
  intros Hk. unfold next_is_sub_row. rewrite lookup_insert_after by assumption.
  rewrite decide_False by lia. by rewrite decide_True.
Qed.

Lemma delete_inserted {A} (s : list A) k x :
  (k < length s)%nat → delete (S k) (take (S k) s ++ x :: drop (S k) s) = s.
Proof.
  intros Hk.
  replace (S k) with (length (take (S k) s)) at 1 by (rewrite length_take; lia).
  rewrite delete_middle. apply take_drop.
Qed.

(** What [addSubRow] does to a content row that has no sub-row, once a
    hidden list is stored: it completes, and inserts right after the row a
    shown sub-row with one pair row for each cell but the first. *)
Lemma addSubRow_inserts h (t : table) g k siblings e cells H :
  columnsToHide h = Some H →
  t !! g = Some siblings →
  siblings !! k = Some (Tr e cells) →
  next_is_sub_row siblings k = false →
  ∃ pairs,
    build_pairs h 0 (drop 1 (filter (λ c, cell_tag c = td) cells)) = inr pairs
    ∧ addSubRow h t g k
      = Normal (<[g := take (S k) siblings ++ SubTr true pairs :: drop (S k) siblings]> t).
Proof.
  intros HH Hg Hk Hnext.
  destruct (build_pairs_defined h H 0 (drop 1 (filter (λ c, cell_tag c = td) cells)) HH)
    as (pairs & Hbuild & _).
  exists pairs. split; [assumption|].
  unfold addSubRow. rewrite Hg, Hk, Hnext. unfold find_td. simpl. by rewrite Hbuild.
Qed.

(** [addSubRow] keeps sub-rows apart when it is given a content row. *)
Lemma insert_keeps_sub_rows_apart (t : table) g k siblings e cells shown inner :
  t !! g = Some siblings →
  siblings !! k = Some (Tr e cells) →
  next_is_sub_row siblings k = false →
  at_most_one_sub_row t →
  at_most_one_sub_row
    (<[g := take (S k) siblings ++ SubTr shown inner :: drop (S k) siblings]> t).
Proof.
  intros Hg Hk Hnext Hinv g' siblings' j r1 r2 Hg' H1 H2 Hsub.
  pose proof (lookup_lt_Some _ _ _ Hg) as Hglen.
  pose proof (lookup_lt_Some _ _ _ Hk) as Hklen.
  destruct (decide (g' = g)) as [->|Hne].
  2:{ rewrite list_lookup_insert_ne in Hg' by done.
      exact (Hinv g' siblings' j r1 r2 Hg' H1 H2 Hsub). }
  rewrite list_lookup_insert_eq in Hg' by assumption. injection Hg' as <-.
  rewrite lookup_insert_after in H1, H2 by assumption.
  unfold next_is_sub_row in Hnext.
  repeat case_decide; simplify_eq; try lia.
  - exact (Hinv g siblings j r1 r2 Hg H1 H2 Hsub).
  - replace (S (S k) - 1)%nat with (S k) in H2 by lia.
    rewrite H2 in Hnext. exact Hnext.
  - replace (S j - 1)%nat with (S (j - 1)) in H2 by lia.
    exact (Hinv g siblings (j - 1)%nat r1 r2 Hg H1 H2 Hsub).
Qed.


(** Calling [addSubRow] again on the table it returned changes nothing. *)
Lemma addSubRow_twice h (t t1 : table) g k :
  addSubRow h t g k = Normal t1 → addSubRow h t1 g k = Normal t1.
Proof.
  unfold addSubRow at 1.
  destruct (t !! g) as [siblings|] eqn:Hg; [|intros [= <-]; unfold addSubRow; by rewrite Hg].
  destruct (siblings !! k) as [jTr|] eqn:Hk;
    [|intros [= <-]; unfold addSubRow; by rewrite Hg, Hk].
  destruct (next_is_sub_row siblings k) eqn:Hnext;
    [intros [= <-]; unfold addSubRow; by rewrite Hg, Hk, Hnext|].
  destruct (build_pairs h 0 (drop 1 (find_td jTr))) as [ex|pairs]; [discriminate|].
  intros [= <-].
  pose proof (lookup_lt_Some _ _ _ Hg) as Hglen.
  pose proof (lookup_lt_Some _ _ _ Hk) as Hklen.
  unfold addSubRow. rewrite list_lookup_insert_eq by assumption.
  rewrite lookup_insert_after by assumption. rewrite decide_True by lia. rewrite Hk.
  by rewrite next_is_sub_row_inserted.
Qed.

(** On a row without a sub-row [addSubRow] throws, leaving the table as it
    was, only while no hidden list is stored; otherwise it inserts the
    sub-row right after the row. *)
Lemma addSubRow_cases h (t : table) g k siblings jTr :
  t !! g = Some siblings →
  siblings !! k = Some jTr →
  next_is_sub_row siblings k = false →
  (∃ ex, addSubRow h t g k = Abrupt ex t ∧ columnsToHide h = None)
  ∨ (∃ pairs, addSubRow h t g k
              = Normal (<[g := take (S k) siblings ++ SubTr true pairs :: drop (S k) siblings]> t)).
Proof.
  intros Hg Hk Hnext. unfold addSubRow. rewrite Hg, Hk, Hnext.
  destruct (build_pairs h 0 (drop 1 (find_td jTr))) as [ex|pairs] eqn:Hbuild; [left|right; eauto].
  exists ex. split; [reflexivity|].
  destruct (columnsToHide h) as [H|] eqn:HH; [|reflexivity].
  destruct (build_pairs_defined h H 0 (drop 1 (find_td jTr)) HH) as (pairs & Hdef & _).
  congruence.
Qed.

(** C8: for every content row, with [t1] the table [addSubRow] leaves
    (it completes whenever a hidden list is stored): a second [addSubRow]
    changes nothing, so that at most one row is added and no row is ever
    followed by two sub-rows; and when the row had no sub-row,
    [removeSubRow] after [addSubRow] gives back the table as it was, with
    the row count it had before the expansion, which had added one row. *)
Theorem expand_collapse_round_trip (h : helper) (t : table) (g k : nat)
    (siblings : list tr) (e : bool) (cells : list cell) :
  t !! g = Some siblings →
  siblings !! k = Some (Tr e cells) →
  at_most_one_sub_row t →
  ∃ t1, outcome (addSubRow h t g k) = t1
        ∧ (is_Some (columnsToHide h) → addSubRow h t g k = Normal t1)
        ∧ outcome (addSubRow h t1 g k) = t1
        ∧ (row_count t1 ≤ S (row_count t))%nat
        ∧ at_most_one_sub_row t1
        ∧ (next_is_sub_row siblings k = false →
           removeSubRow t1 g k = t
           ∧ row_count (removeSubRow t1 g k) = row_count t
           ∧ (is_Some (columnsToHide h) → row_count t1 = S (row_count t))).
Proof.
  intros Hg Hk Hinv.
  pose proof (lookup_lt_Some _ _ _ Hg) as Hglen.
  pose proof (lookup_lt_Some _ _ _ Hk) as Hklen.
  destruct (next_is_sub_row siblings k) eqn:Hnext.
  { assert (Hadd : addSubRow h t g k = Normal t).
    { unfold addSubRow. by rewrite Hg, Hk, Hnext. }
    exists t. rewrite Hadd. repeat split; try done. lia. }
  assert (Hsame : removeSubRow t g k = t).
  { unfold removeSubRow. by rewrite Hg, Hnext. }
  destruct (addSubRow_cases h t g k siblings (Tr e cells) Hg Hk Hnext)
    as [(ex & Hadd & Hnone)|(pairs & Hadd)].
  - exists t. rewrite Hadd. simpl.
    split; [reflexivity|]. split; [rewrite Hnone; by intros [? ?]|].
    split; [reflexivity|]. split; [lia|]. split; [assumption|].
    intros _. rewrite Hsame. split; [reflexivity|]. split; [reflexivity|].
    rewrite Hnone. by intros [? ?].
  - eexists. rewrite Hadd. simpl. split; [reflexivity|]. split; [reflexivity|].
    split; [by rewrite (addSubRow_twice h t _ g k Hadd)|].
    assert (Hcount : row_count
                       (<[g := take (S k) siblings ++ SubTr true pairs :: drop (S k) siblings]> t)
                     = S (row_count t)).
    { pose proof (row_count_insert t g siblings
                    (take (S k) siblings ++ SubTr true pairs :: drop (S k) siblings) Hg) as Hc.
      rewrite length_app, length_take, length_cons, length_drop in Hc. lia. }
    assert (Hback : removeSubRow
                      (<[g := take (S k) siblings ++ SubTr true pairs :: drop (S k) siblings]> t)
                      g k = t).
    { unfold removeSubRow. rewrite list_lookup_insert_eq by assumption.
      rewrite next_is_sub_row_inserted by assumption.
      rewrite list_insert_insert_eq, delete_inserted by assumption.
      by apply list_insert_id. }
    split; [lia|]. split; [by eapply insert_keeps_sub_rows_apart|].
    intros _. split; [exact Hback|]. split; [by rewrite Hback|]. intros _. exact Hcount.
Qed.

Lemma expand_collapse_round_trip_witness :
  ∃ t1, outcome (addSubRow (set_columnsToHide (Some [2%nat]) (scenario HostFunction 300))
                   [[Tr true [Cell td "+" true; Cell td "a" true; Cell td "b" true]]] 0 0) = t1
        ∧ row_count t1 = 2%nat
        ∧ removeSubRow t1 0 0 = [[Tr true [Cell td "+" true; Cell td "a" true; Cell td "b" true]]].
Proof.
  destruct (expand_collapse_round_trip
              (set_columnsToHide (Some [2%nat]) (scenario HostFunction 300))
              [[Tr true [Cell td "+" true; Cell td "a" true; Cell td "b" true]]] 0 0
              [Tr true [Cell td "+" true; Cell td "a" true; Cell td "b" true]]
              true [Cell td "+" true; Cell td "a" true; Cell td "b" true])
    as (t1 & Hout & _ & _ & _ & _ & Hround).
  - reflexivity.
  - reflexivity.
  - intros g siblings k r1 r2 Hg H1 H2 Hsub.
    destruct g as [|g]; [|discriminate]. injection Hg as <-.
    destruct k as [|k]; [|discriminate]. injection H1 as <-. discriminate.
  - destruct (Hround eq_refl) as (Hback & _ & Hcount).
    exists t1. split; [exact Hout|]. split; [|exact Hback].
    apply Hcount. by eexists.
Defined.



(** ** Further properties of the code *)

(** *** Arrays *)

Lemma indexOf_first (l1 l2 : list nat) (value : nat) :
  value ∉ l1 → indexOf (l1 ++ value :: l2) value = Z.of_nat (length l1).
Proof.
  induction l1 as [|x l1 IH]; intros Hout; simpl.
  - by rewrite decide_True.
  - rewrite decide_False by (intros ->; apply Hout; left).
    rewrite IH by (intros Hin; apply Hout; by right).
    rewrite decide_False by lia. lia.
Qed.

(** X1: [removeByValue] leaves an array that does not hold the value as it
    is, and otherwise removes the first occurrence of the value and nothing
    else: later occurrences stay. *)
Theorem removeByValue_first_occurrence (arr : list nat) (value : nat) :
  (value ∉ arr → removeByValue arr value = arr)
  ∧ (∀ l1 l2, arr = l1 ++ value :: l2 → value ∉ l1 →
              removeByValue arr value = l1 ++ l2).
Proof.
  unfold removeByValue. split.
  - intros Hout. apply indexOf_missing in Hout. rewrite <- Hout.
    destruct (decide (-1 ≠ -1)); [congruence | reflexivity].
  - intros l1 l2 -> Hfirst. rewrite indexOf_first by assumption.
    rewrite decide_True by lia. rewrite Nat2Z.id. apply delete_middle.
Qed.

(** *** What [listen] measures *)

#[local] Instance key_le_transitive : Transitive key_le.
Proof. intros a b c. unfold key_le. lia. Qed.

#[local] Instance key_le_total : Total key_le.
Proof. intros a b. unfold key_le. lia. Qed.

Lemma lookup_unique_key (l : list (nat * Z)) k v1 v2 :
  NoDup l.*1 → (k, v1) ∈ l → (k, v2) ∈ l → v1 = v2.
Proof.
  intros Hnd H1 H2.
  apply (elem_of_list_to_map (M:=gmap nat) l k v1 Hnd) in H1.
  apply (elem_of_list_to_map (M:=gmap nat) l k v2 Hnd) in H2.
  congruence.
Qed.

(** [for ... in] walks an object built from a list with ascending keys in
    the order of the list. *)
Lemma for_in_sorted (l : list (nat * Z)) :
  Sorted key_le l → NoDup l.*1 → for_in (list_to_map l) = l.
Proof.
  intros Hsorted Hnd. unfold for_in.
  assert (Hperm : merge_sort key_le (map_to_list (list_to_map (M:=gmap nat Z) l)) ≡ₚ l).
  { rewrite merge_sort_Permutation. by apply map_to_list_to_map. }
  apply (Sorted_unique_strong key_le); [|by apply Sorted_merge_sort, _|assumption..].
  intros [k1 v1] [k2 v2] H1 H2 Hle Hge. unfold key_le in *. simpl in *.
  assert (k1 = k2) as -> by lia. f_equal.
  rewrite Hperm in H1. by eapply lookup_unique_key.
Qed.

Lemma indexed_sorted (f : nat → Z) (j n : nat) :
  Sorted key_le ((λ i, (i, f i)) <$> seq j n).
Proof.
  revert j. induction n as [|n IH]; intros j; simpl; [constructor|].
  constructor; [apply IH|].
  destruct n as [|n]; simpl; constructor. unfold key_le. simpl. lia.
Qed.

Lemma indexed_keys (f : nat → Z) (j n : nat) :
  ((λ i, (i, f i)) <$> seq j n).*1 = seq j n.
Proof. rewrite <- list_fmap_compose. apply list_fmap_id. Qed.

Lemma getColumnMinWidths_indexed (b : browser) (m : markup) :
  getColumnMinWidths b m
  = list_to_map ((λ i, (i, cell_outerWidth b i)) <$> seq 0 (length (first_row m))).
Proof.
  unfold getColumnMinWidths, first_row.
  by rewrite (imap_seq_0 _ (λ i, (i, cell_outerWidth b i))).
Qed.

(** X2: the map [getColumnMinWidths] returns has exactly the keys
    [0 .. n-1], [n] the number of cells of the first row of the table, and
    holds at each the outer width of that cell; a table without rows gives
    the empty map. *)
Theorem getColumnMinWidths_lookup (b : browser) (m : markup) (index : nat) :
  getColumnMinWidths b m !! index
  = (if decide (index < length (first_row m))%nat then Some (cell_outerWidth b index) else None)
  ∧ (concat m = [] → getColumnMinWidths b m = ∅).
Proof.
  split.
  - rewrite getColumnMinWidths_indexed. case_decide as Hlt.
    + apply elem_of_list_to_map.
      * rewrite indexed_keys. apply NoDup_seq.
      * apply list_elem_of_fmap. exists index. split; [reflexivity|].
        apply elem_of_seq. lia.
    + apply not_elem_of_list_to_map. rewrite indexed_keys, elem_of_seq. lia.
  - intros Hempty. unfold getColumnMinWidths. by rewrite Hempty.
Qed.

Lemma for_in_getColumnMinWidths (b : browser) (m : markup) :
  for_in (getColumnMinWidths b m)
  = (λ i, (i, cell_outerWidth b i)) <$> seq 0 (length (first_row m)).
Proof.
  rewrite getColumnMinWidths_indexed. apply for_in_sorted.
  - apply indexed_sorted.
  - rewrite indexed_keys. apply NoDup_seq.
Qed.

Lemma foldl_add (l : list (nat * Z)) (acc : Z) :
  foldl (λ sum kv, sum + kv.2) acc l = acc + total (l.*2).
Proof.
  revert acc. induction l as [|kv l IH]; intros acc; [unfold total; cbn; lia|].
  cbn [foldl]. rewrite IH. rewrite fmap_cons. unfold total. cbn [foldr]. lia.
Qed.

Lemma sum_measured (b : browser) (m : markup) :
  sum (getColumnMinWidths b m) = total (measured_widths b (length (first_row m))).
Proof.
  unfold sum. rewrite for_in_getColumnMinWidths, foldl_add. simpl.
  unfold measured_widths. f_equal.
  rewrite <- list_fmap_compose. reflexivity.
Qed.

(** X3: [sum] applied to the measured map is the sum of the outer widths
    of the cells of the first row: the total [listen] stores in
    [columnsTotalWidth] counts every column once, the toggle column
    included. *)
Theorem sum_getColumnMinWidths (b : browser) (m : markup) :
  sum (getColumnMinWidths b m) = total (measured_widths b (length (first_row m))).
Proof.
  unfold sum. rewrite for_in_getColumnMinWidths, foldl_add.
  rewrite Z.add_0_l. unfold measured_widths. f_equal.
  rewrite <- list_fmap_compose. reflexivity.
Qed.

Lemma foldl_last_padding (l : list (nat * Z)) (p : padding_option) :
  foldl (λ _ kv, Padding kv.2) p l
  = match last l with
    | Some kv => Padding kv.2
    | None => p
    end.
Proof.
  revert p. induction l as [|kv l IH]; intros p; [reflexivity|].
  cbn [foldl]. rewrite IH, last_cons. destruct (last l); reflexivity.
Qed.

(** X4: the padding ["auto"] resolves to the measured width of the last
    cell of the first row, the column with the highest index; on a table
    whose first row has no cell it stays ["auto"], and the available width
    [listen] then computes is not a number.  An explicit padding is
    kept. *)
Theorem resolve_padding_auto (b : browser) (m : markup) :
  resolve_padding PaddingAuto (getColumnMinWidths b m)
  = match length (first_row m) with
    | O => PaddingAuto
    | S n => Padding (cell_outerWidth b n)
    end
  ∧ (length (first_row m) = 0%nat →
     subtract_padding (container_outerWidth b)
       (resolve_padding PaddingAuto (getColumnMinWidths b m)) = NaN)
  ∧ (∀ px minWidths, resolve_padding (Padding px) minWidths = Padding px).
Proof.
  assert (Hauto : resolve_padding PaddingAuto (getColumnMinWidths b m)
                  = match length (first_row m) with
                    | O => PaddingAuto
                    | S n => Padding (cell_outerWidth b n)
                    end).
  { unfold resolve_padding. rewrite foldl_last_padding, for_in_getColumnMinWidths.
    destruct (length (first_row m)) as [|n]; [reflexivity|].
    rewrite seq_S, fmap_app. cbn [fmap list_fmap]. rewrite last_snoc. reflexivity. }
  split; [exact Hauto|]. split; [|reflexivity].
  intros Hlen. rewrite Hauto, Hlen. reflexivity.
Qed.

(** *** addColumn *)

Lemma addColumn_tr_first content (row : list cell) :
  row ≠ [] → addColumn_tr content (Some 0) row = (Some 0, with_new_cell content 0 row).
Proof.
  intros Hrow. destruct row as [|c row]; [done|].
  unfold addColumn_tr, with_new_cell.
  rewrite decide_False by (unfold default; cbn [from_option id length]; lia).
  unfold eq_index. rewrite decide_True by lia.
  rewrite decide_True by (cbn [length]; lia). reflexivity.
Qed.

Lemma addColumn_tr_append content (row : list cell) :
  row ≠ [] → addColumn_tr content None row = (None, with_new_cell content (length row) row).
Proof.
  intros Hrow. destruct row as [|c row]; [done|].
  unfold addColumn_tr, with_new_cell.
  rewrite decide_False by (unfold default; cbn [from_option id length]; lia). reflexivity.
Qed.

Lemma addColumn_tr_before_last content (row : list cell) :
  addColumn_tr content (Some (-1)) row
  = (Some (-1), with_new_cell content (length row - 1) row).
Proof.
  destruct row as [|c row].
  - unfold addColumn_tr. rewrite decide_False by (unfold default; cbn [from_option id length]; lia). reflexivity.
  - unfold addColumn_tr, with_new_cell.
    rewrite decide_False by (unfold default; cbn [from_option id length]; lia).
    unfold eq_index. rewrite decide_False by lia.
    rewrite decide_True by (cbn [length]; lia).
    replace (Z.to_nat (Z.of_nat (length (c :: row)) + -1)) with (length (c :: row) - 1)%nat by lia.
    reflexivity.
Qed.

Lemma addColumn_rows_first content (rows : list (list cell)) :
  Forall (λ row, row ≠ []) rows →
  addColumn_rows content (Some 0) rows = (Some 0, with_new_cell content 0 <$> rows).
Proof.
  induction 1 as [|row rows Hrow _ IH]; [reflexivity|].
  cbn [addColumn_rows]. rewrite addColumn_tr_first by assumption. by rewrite IH.
Qed.

Lemma addColumn_rows_append content (rows : list (list cell)) :
  Forall (λ row, row ≠ []) rows →
  addColumn_rows content None rows
  = (None, (λ row, with_new_cell content (length row) row) <$> rows).
Proof.
  induction 1 as [|row rows Hrow _ IH]; [reflexivity|].
  cbn [addColumn_rows]. rewrite addColumn_tr_append by assumption. by rewrite IH.
Qed.

Lemma addColumn_rows_before_last content (rows : list (list cell)) :
  addColumn_rows content (Some (-1)) rows
  = (Some (-1), (λ row, with_new_cell content (length row - 1) row) <$> rows).
Proof.
  induction rows as [|row rows IH]; [reflexivity|].
  cbn [addColumn_rows]. rewrite addColumn_tr_before_last. by rewrite IH.
Qed.

Lemma addColumn_groups_before_last content (m : markup) :
  addColumn_groups content (Some (-1)) m
  = (Some (-1), fmap (M:=list) (λ row, with_new_cell content (length row - 1) row) <$> m).
Proof.
  induction m as [|rows m IH]; [reflexivity|].
  cbn [addColumn_groups]. rewrite addColumn_rows_before_last. by rewrite IH.
Qed.

(** X5: on a table where every row has a cell, [addColumn(0, content)]
    puts the new cell first in every row, and [addColumn(null, content)]
    puts it last; the cells the row had keep their order.  The new cell is
    a clone of the first cell of its row (its tag, its display state) with
    the content replaced. *)
Theorem addColumn_first_or_last (content : column_content) (m : markup) :
  Forall (Forall (λ row, row ≠ [])) m →
  addColumn (Some 0) content m = fmap (M:=list) (with_new_cell content 0) <$> m
  ∧ addColumn None content m
    = fmap (M:=list) (λ row, with_new_cell content (length row) row) <$> m.
Proof.
  intros Hm. unfold addColumn. split.
  - assert (H : addColumn_groups content (Some 0) m
                = (Some 0, fmap (M:=list) (with_new_cell content 0) <$> m)).
    { induction Hm as [|rows m Hrows _ IH]; [reflexivity|].
      cbn [addColumn_groups]. rewrite addColumn_rows_first by assumption. by rewrite IH. }
    by rewrite H.
  - assert (H : addColumn_groups content None m
                = (None, fmap (M:=list) (λ row, with_new_cell content (length row) row) <$> m)).
    { induction Hm as [|rows m Hrows _ IH]; [reflexivity|].
      cbn [addColumn_groups]. rewrite addColumn_rows_append by assumption. by rewrite IH. }
    by rewrite H.
Qed.

Lemma addColumn_first_or_last_witness :
  addColumn (Some 0) (ContentArray "" "+") sample_markup
  = fmap (M:=list) (with_new_cell (ContentArray "" "+") 0) <$> sample_markup
  ∧ addColumn None (ContentArray "" "+") sample_markup
    = fmap (M:=list) (λ row, with_new_cell (ContentArray "" "+") (length row) row)
        <$> sample_markup.
Proof.
  apply (addColumn_first_or_last (ContentArray "" "+") sample_markup).
  repeat constructor; discriminate.
Defined.

(** X6: a row without cells changes where [addColumn(0, content)] puts the
    new cell in all the rows after it.  The clamp sets the position to -1
    on the empty row and the assignment stays: when the first row of the
    table is empty, every later row gets the new cell before its last
    cell, not first. *)
Theorem addColumn_after_empty_row (content : column_content)
    (rows : list (list cell)) (groups : markup) :
  addColumn (Some 0) content (([] :: rows) :: groups)
  = ([] :: ((λ row, with_new_cell content (length row - 1) row) <$> rows))
    :: (fmap (M:=list) (λ row, with_new_cell content (length row - 1) row) <$> groups).
Proof.
  unfold addColumn. cbn [addColumn_groups addColumn_rows].
  assert (Hempty : addColumn_tr content (Some 0) [] = (Some (-1), [])).
  { unfold addColumn_tr. rewrite decide_True by (unfold default; cbn [from_option id length]; lia). reflexivity. }
  rewrite Hempty, addColumn_rows_before_last, addColumn_groups_before_last. reflexivity.
Qed.

Lemma eq_index_found (n : nat) (q : Z) :
  (1 ≤ n)%nat → -1 ≤ q → q < Z.of_nat n → ∃ i, eq_index n q = Some i ∧ (i < n)%nat.
Proof.
  intros Hn Hlow Hhigh. unfold eq_index. destruct (decide (0 ≤ q)).
  - rewrite decide_True by lia. eexists. split; [reflexivity | lia].
  - rewrite decide_True by lia. eexists. split; [reflexivity | lia].
Qed.

Lemma addColumn_tr_length content position (row : list cell) :
  usable_position position →
  usable_position (addColumn_tr content position row).1
  ∧ length (addColumn_tr content position row).2
    = (if decide (row = []) then 0 else S (length row))%nat.
Proof.
  intros Husable. unfold addColumn_tr.
  destruct row as [|c row].
  - cbn [snd fst]. split; [|reflexivity].
    case_decide; [cbn; lia | assumption].
  - rewrite (decide_False (P := c :: row = [])) by discriminate.
    set (n := length (c :: row)).
    assert (Hn : (1 ≤ n)%nat) by (subst n; cbn [length]; lia).
    assert (Hlen : ∀ i x, (i ≤ n)%nat →
              length (take i (c :: row) ++ x :: drop i (c :: row)) = S n).
    { intros i x Hi. rewrite length_app, length_cons, length_take, length_drop.
      fold n. lia. }
    destruct (decide (default 0 position > Z.of_nat n - 1)) as [Hclamp|Hkeep].
    + destruct (eq_index_found n (Z.of_nat n - 1)) as (i & -> & Hi); [lia..|].
      cbn [fst snd usable_position]. split; [lia|]. apply Hlen. lia.
    + destruct position as [p|]; cbn [usable_position] in Husable.
      * destruct (eq_index_found n p) as (i & -> & Hi);
          [lia | lia | change (default 0 (Some p)) with p in Hkeep; lia |].
        cbn [fst snd usable_position]. split; [lia|]. apply Hlen. lia.
      * cbn [fst snd usable_position]. split; [exact I|]. by apply Hlen.
Qed.

Lemma addColumn_rows_length content position (rows : list (list cell)) :
  usable_position position →
  usable_position (addColumn_rows content position rows).1
  ∧ Forall2 (λ row row', length row' = (if decide (row = []) then 0 else S (length row))%nat)
            rows (addColumn_rows content position rows).2.
Proof.
  revert position. induction rows as [|row rows IH]; intros position Husable.
  - split; [assumption | constructor].
  - cbn [addColumn_rows].
    destruct (addColumn_tr_length content position row Husable) as [Hnext Hlen].
    destruct (addColumn_tr content position row) as [position' row'].
    destruct (IH position' Hnext) as [Hlast Hrest].
    destruct (addColumn_rows content position' rows) as [position'' rows'].
    split; [assumption|]. by constructor.
Qed.

(** X7: for a position that is [null], an index from 0 on, or -1,
    [addColumn] adds exactly one cell to every row that has a cell and
    leaves the rows without cells empty; no row and no group of rows is
    added or removed. *)
Theorem addColumn_one_cell_per_row (position : option Z) (content : column_content) (m : markup) :
  usable_position position →
  Forall2 (Forall2 (λ row row',
                      length row' = (if decide (row = []) then 0 else S (length row))%nat))
          m (addColumn position content m).
Proof.
  unfold addColumn. revert position. induction m as [|rows m IH]; intros position Husable.
  - constructor.
  - cbn [addColumn_groups].
    destruct (addColumn_rows_length content position rows Husable) as [Hnext Hrows].
    destruct (addColumn_rows content position rows) as [position' rows'].
    specialize (IH position' Hnext).
    destruct (addColumn_groups content position' m) as [position'' m'].
    by constructor.
Qed.

Lemma addColumn_one_cell_per_row_witness :
  Forall2 (Forall2 (λ row row',
                      length row' = (if decide (row = []) then 0 else S (length row))%nat))
          sample_markup (addColumn (Some 7) (ContentString "+") sample_markup).
Proof. apply (addColumn_one_cell_per_row (Some 7) (ContentString "+") sample_markup). cbn. lia. Defined.

(** *** hideColumns and redraw on the table *)

Lemma imap_twice {A} (f g : nat → A → A) (l : list A) :
  imap f (imap g l) = imap (λ i x, f i (g i x)) l.
Proof.
  revert f g. induction l as [|x l IH]; intros f g; [reflexivity|].
  rewrite !imap_cons. f_equal. rewrite IH. reflexivity.
Qed.

Lemma hide_or_show_last H1 H2 index c :
  hide_or_show H2 index (hide_or_show H1 index c) = hide_or_show H2 index c.
Proof. unfold hide_or_show. repeat case_decide; reflexivity. Qed.

Lemma hide_or_show_cells_last H1 H2 (cells : list cell) :
  imap (hide_or_show H2) (imap (hide_or_show H1) cells) = imap (hide_or_show H2) cells.
Proof.
  rewrite imap_twice. apply imap_ext. intros i c _. apply hide_or_show_last.
Qed.

Lemma sub_row_cell_last H1 H2 shown :
  cell_shown (hide_or_show H2 0%nat
                (Cell td "" (cell_shown (hide_or_show H1 0%nat (Cell td "" shown)))))
  = cell_shown (hide_or_show H2 0%nat (Cell td "" shown)).
Proof. unfold hide_or_show. repeat case_decide; reflexivity. Qed.

Lemma hideColumns_tr_last H1 H2 (r : tr) :
  hideColumns_tr H2 (hideColumns_tr H1 r) = hideColumns_tr H2 r.
Proof.
  destruct r as [expanded cells|shown inner]; simpl.
  - by rewrite hide_or_show_cells_last.
  - rewrite sub_row_cell_last. f_equal.
    rewrite <- list_fmap_compose. apply list_fmap_ext. intros i p _.
    unfold hideColumns_inner. simpl. by rewrite hide_or_show_cells_last.
Qed.

(** X8: [hideColumns] keeps no memory of earlier calls: after two calls
    the table is as after the second call alone.  In particular a call is
    idempotent, and [hideColumns([])] shows every cell again, whatever was
    hidden before. *)
Theorem hideColumns_last_call_wins (H1 H2 : list nat) (t : table) :
  hideColumns H2 (hideColumns H1 t) = hideColumns H2 t.
Proof.
  unfold hideColumns. rewrite <- list_fmap_compose.
  apply list_fmap_ext. intros g siblings _. simpl.
  rewrite <- list_fmap_compose. apply list_fmap_ext. intros k r _.
  apply hideColumns_tr_last.
Qed.

Lemma show_hide_or_show H index c : show (hide_or_show H index c) = show c.
Proof. unfold hide_or_show. case_decide; reflexivity. Qed.

Lemma show_cells_imap H (cells : list cell) :
  show <$> imap (hide_or_show H) cells = show <$> cells.
Proof.
  apply list_eq. intros i. rewrite !list_lookup_fmap, list_lookup_imap.
  destruct (cells !! i); simpl; [|reflexivity]. by rewrite show_hide_or_show.
Qed.

Lemma undisplayed_redrawn_tr E H (r : tr) :
  undisplayed_tr (resize_sub_row E H (hideColumns_tr H r)) = undisplayed_tr r.
Proof.
  destruct r as [expanded cells|shown inner]; simpl.
  - by rewrite show_cells_imap.
  - f_equal. apply list_eq. intros i.
    rewrite !list_lookup_fmap, list_lookup_imap, list_lookup_fmap.
    destruct (inner !! i) as [p|]; simpl; [|reflexivity].
    by rewrite show_cells_imap.
Qed.

(** X9: [redraw] touches display states only.  However it ends, the table
    it leaves has the rows, the row classes, the cells and the cell
    contents of the table it was given: it adds, removes and rewrites
    nothing. *)
Theorem redraw_changes_display_only (h : helper) (t : table) :
  undisplayed (outcome (redraw h t)).2 = undisplayed t.
Proof.
  unfold redraw.
  destruct (computeHiddenColumns h) as [[H log]|ex [H log]]; [|reflexivity].
  simpl. unfold undisplayed, hideColumns.
  rewrite <- !list_fmap_compose. apply list_fmap_ext. intros g siblings _. simpl.
  rewrite <- !list_fmap_compose. apply list_fmap_ext. intros k r _. simpl.
  apply undisplayed_redrawn_tr.
Qed.

Lemma redrawn_tr_fixed E H (r : tr) :
  resize_sub_row E H (hideColumns_tr H (resize_sub_row E H (hideColumns_tr H r)))
  = resize_sub_row E H (hideColumns_tr H r).
Proof.
  destruct r as [expanded cells|shown inner]; simpl.
  - by rewrite hide_or_show_cells_last.
  - rewrite sub_row_cell_last. f_equal. apply list_eq. intros i.
    rewrite !list_lookup_imap, !list_lookup_fmap, !list_lookup_imap, !list_lookup_fmap.
    destruct (inner !! i) as [p|]; simpl; [|reflexivity].
    by rewrite hide_or_show_cells_last.
Qed.

(** X10: the table a completed [redraw] leaves is a fixed point: running
    [redraw] again, with nothing changed in between, completes, stores the
    same hidden list and leaves every row and cell as it is. *)
Theorem redraw_twice_same_table (h h1 : helper) (t t1 : table) :
  redraw h t = Normal (h1, t1) →
  ∃ h2, redraw h1 t1 = Normal (h2, t1) ∧ columnsToHide h2 = columnsToHide h1.
Proof.
  unfold redraw at 1.
  destruct (computeHiddenColumns h) as [[H log]|ex [H log]] eqn:Hc; [|discriminate].
  intros [= <- <-].
  unfold redraw. rewrite (computeHiddenColumns_ext _ h) by reflexivity. rewrite Hc.
  eexists. split.
  - f_equal. f_equal. simpl.
    unfold hideColumns. rewrite <- !list_fmap_compose.
    apply list_fmap_ext. intros g siblings _. simpl.
    rewrite <- !list_fmap_compose. apply list_fmap_ext. intros k r _. simpl.
    apply redrawn_tr_fixed.
  - reflexivity.
Qed.

Lemma redraw_twice_same_table_witness :
  ∃ h1 t1 h2,
    redraw (scenario HostFunction 300)
           [[Tr false [Cell td "+" true; Cell td "a" true; Cell td "b" true;
                       Cell td "c" true; Cell td "d" true; Cell td "e" true]]]
    = Normal (h1, t1)
    ∧ redraw h1 t1 = Normal (h2, t1)
    ∧ columnsToHide h2 = columnsToHide h1.
Proof.
  destruct (redraw_twice_same_table (scenario HostFunction 300) _
              [[Tr false [Cell td "+" true; Cell td "a" true; Cell td "b" true;
                          Cell td "c" true; Cell td "d" true; Cell td "e" true]]] _ eq_refl)
    as (h2 & Hrun & Hsame).
  eexists _, _, h2. split; [reflexivity|]. split; [exact Hrun | exact Hsame].
Defined.

(** *** What the layout pass hides *)

Lemma collapsed_cons_measured minWidths c consumed w :
  minWidths !! (c + 1)%nat = Some w →
  collapsed minWidths (c :: consumed) = (c + 1)%nat :: collapsed minWidths consumed.
Proof. intros Hw. unfold collapsed. rewrite fmap_cons, filter_cons_True; eauto. Qed.

Lemma collapsed_cons_unmeasured minWidths c consumed :
  minWidths !! (c + 1)%nat = None →
  collapsed minWidths (c :: consumed) = collapsed minWidths consumed.
Proof.
  intros Hw. unfold collapsed. rewrite fmap_cons, filter_cons_False; [done|].
  rewrite Hw. by intros [? ?].
Qed.

Lemma widths_of_cons minWidths n columns :
  widths_of minWidths (n :: columns)
  = default 0 (minWidths !! n) + widths_of minWidths columns.
Proof. reflexivity. Qed.

(** The loop, with its account of the running total: it goes on exactly
    as long as the columns still shown do not fit. *)
Lemma collapse_loop_account h queue st st' :
  collapse_loop h queue st = Normal st' →
  ∃ consumed rest,
    queue = consumed ++ rest
    ∧ l_columnsToHide st' = l_columnsToHide st ++ collapsed (minWidths h) consumed
    ∧ l_columnsTotalWidth st'
      = l_columnsTotalWidth st - widths_of (minWidths h) (collapsed (minWidths h) consumed)
    ∧ (rest = [] ∨ num_lt (availableWidth h) (l_columnsTotalWidth st') = false)
    ∧ (∀ p c tail, consumed = p ++ c :: tail →
         num_lt (availableWidth h)
           (l_columnsTotalWidth st - widths_of (minWidths h) (collapsed (minWidths h) p))
         = true).
Proof.
  revert st. induction queue as [|c queue IH]; intros st Hrun.
  - rewrite collapse_loop_exhausted in Hrun. injection Hrun as <-.
    exists [], []. split; [reflexivity|]. split; [by rewrite app_nil_r|].
    split; [unfold widths_of, total; cbn; lia|]. split; [by left|].
    intros p c tail Heq. by destruct p.
  - destruct (num_lt (availableWidth h) (l_columnsTotalWidth st)) eqn:Hlt.
    2:{ rewrite collapse_loop_fits in Hrun by assumption. injection Hrun as <-.
        exists [], (c :: queue). split; [reflexivity|]. split; [by rewrite app_nil_r|].
        split; [unfold widths_of, total; cbn; lia|]. split; [by right|].
        intros p c' tail Heq. by destruct p. }
    assert (Hfirst : num_lt (availableWidth h)
                       (l_columnsTotalWidth st
                        - widths_of (minWidths h) (collapsed (minWidths h) [])) = true).
    { replace (l_columnsTotalWidth st - widths_of (minWidths h) (collapsed (minWidths h) []))
        with (l_columnsTotalWidth st) by (unfold widths_of, total; cbn; lia).
      exact Hlt. }
    destruct (minWidths h !! (c + 1)%nat) as [w|] eqn:Hw.
    + rewrite (collapse_loop_hide _ _ _ _ w) in Hrun by assumption.
      apply IH in Hrun as (consumed & rest & -> & Hhide & Htotal & Hstop & Hneeded).
      cbn [l_columnsToHide l_columnsTotalWidth] in *.
      exists (c :: consumed), rest. split; [reflexivity|].
      rewrite (collapsed_cons_measured _ _ _ w) by assumption.
      split; [by rewrite Hhide, <- app_assoc|].
      split; [rewrite Htotal, widths_of_cons, Hw; cbn; lia|].
      split; [assumption|].
      intros [|c' p] c'' tail Heq; [exact Hfirst|].
      injection Heq as -> ->.
      rewrite (collapsed_cons_measured _ _ _ w) by assumption.
      rewrite widths_of_cons, Hw. cbn [default from_option id].
      rewrite <- (Hneeded p c'' tail eq_refl). f_equal. lia.
    + destruct (error h) eqn:He.
      { rewrite collapse_loop_throw in Hrun by assumption. discriminate. }
      rewrite collapse_loop_report in Hrun by assumption.
      apply IH in Hrun as (consumed & rest & -> & Hhide & Htotal & Hstop & Hneeded).
      cbn [l_columnsToHide l_columnsTotalWidth] in *.
      exists (c :: consumed), rest. split; [reflexivity|].
      rewrite collapsed_cons_unmeasured by assumption.
      split; [assumption|]. split; [assumption|]. split; [assumption|].
      intros [|c' p] c'' tail Heq; [exact Hfirst|].
      injection Heq as -> ->.
      rewrite collapsed_cons_unmeasured by assumption.
      exact (Hneeded p c'' tail eq_refl).
Qed.

Lemma filtered_out_elem E n :
  n ≠ 0%nat → (filtered_out E n = true ↔ (n - 1)%nat ∈ E).
Proof.
  intros Hn. destruct n as [|i]; [done|]. simpl.
  rewrite bool_decide_eq_true, indexOf_found. by rewrite Nat.sub_0_r.
Qed.

Lemma toggle_rule_zero E (columnsToHide : list nat) :
  (∀ n, n ∈ columnsToHide → n ≠ 0%nat) →
  (0%nat ∈ toggle_rule E columnsToHide ↔ ∀ n, n ∈ columnsToHide → (n - 1)%nat ∈ E).
Proof.
  intros Hdata. unfold toggle_rule.
  destruct (decide (0%nat = length columnsToHide)) as [Hlen|Hlen].
  { destruct columnsToHide; [|discriminate]. simpl. split.
    - intros _ n Hn. inversion Hn.
    - intros _. left. }
  destruct (filter (λ e, filtered_out E e = false) columnsToHide) as [|x kept] eqn:Hkept; simpl.
  - split; [|intros _; apply elem_of_app; right; left].
    intros _ n Hn. apply filtered_out_elem; [auto|].
    pose proof (filter_nil_not_elem_of _ _ n Hkept) as Hnot.
    destruct (filtered_out E n) eqn:Hf; [reflexivity|]. exfalso. exact (Hnot Hf Hn).
  - split.
    + intros Hzero. by apply Hdata in Hzero.
    + intros Hall. exfalso.
      assert (Hx : x ∈ filter (λ e, filtered_out E e = false) columnsToHide)
        by (rewrite Hkept; left).
      apply list_elem_of_filter in Hx as [Hout Hx].
      apply Hall in Hx as Hin. apply filtered_out_elem in Hin; [congruence | auto].
Qed.

(** X12: the toggle column is in the hidden list a completed pass stores
    exactly when there is nothing to expand: when every data column the
    pass hides is in the filter list (in particular when it hides no data
    column at all). *)
Theorem toggle_column_hidden_iff (h : helper) (t : table) (H : list nat) :
  computed (redraw h t) = Some H →
  (0%nat ∈ H ↔
   ∀ n, n ∈ H → n ≠ 0%nat → (n - 1)%nat ∈ expandedColumnFilterIndexes (options h)).
Proof.
  rewrite computed_redraw. intros Hrun.
  apply hidden_columns_consumed in Hrun as (consumed & rest & _ & ->).
  assert (Hdata : ∀ n, n ∈ collapsed (minWidths h) consumed → n ≠ 0%nat).
  { intros n Hn. apply elem_of_collapsed in Hn as (_ & c & -> & _). lia. }
  rewrite toggle_rule_zero by assumption. split.
  - intros Hall n Hn Hnz. apply Hall.
    apply elem_of_toggle_rule in Hn as [?|?]; [done | assumption].
  - intros Hall n Hn. apply Hall; [by apply toggle_rule_keeps | by apply Hdata].
Qed.

Lemma toggle_column_hidden_iff_witness :
  0%nat ∈ [5; 0]%nat ↔
  ∀ n, n ∈ [5; 0]%nat → n ≠ 0%nat →
       (n - 1)%nat ∈ expandedColumnFilterIndexes
                       (options (sample_helper Undefined [40; 80; 80; 80; 80; 160]
                                   [4; 3]%nat [4]%nat 400)).
Proof.
  apply (toggle_column_hidden_iff
           (sample_helper Undefined [40; 80; 80; 80; 80; 160] [4; 3]%nat [4]%nat 400) []).
  reflexivity.
Defined.

Lemma collapse_loop_wider h1 h2 (w1 w2 : Z) queue st st1 :
  availableWidth h1 = Num w1 → availableWidth h2 = Num w2 → w1 ≤ w2 →
  minWidths h1 = minWidths h2 → error h1 = error h2 →
  collapse_loop h1 queue st = Normal st1 →
  ∃ st2 extra,
    collapse_loop h2 queue st = Normal st2
    ∧ l_columnsToHide st1 = l_columnsToHide st2 ++ extra.
Proof.
  intros Ha1 Ha2 Hle Hm He. revert st.
  induction queue as [|c queue IH]; intros st Hrun.
  - rewrite collapse_loop_exhausted in *. injection Hrun as <-.
    exists st, []. by rewrite app_nil_r.
  - destruct (num_lt (availableWidth h2) (l_columnsTotalWidth st)) eqn:Hlt2.
    2:{ rewrite (collapse_loop_fits h2) by assumption.
        apply collapse_loop_consumed in Hrun as (consumed & rest & _ & Hhide).
        exists st. eauto. }
    assert (Hlt1 : num_lt (availableWidth h1) (l_columnsTotalWidth st) = true).
    { rewrite Ha2 in Hlt2. rewrite Ha1. unfold num_lt in *.
      apply bool_decide_eq_true in Hlt2. apply bool_decide_eq_true. lia. }
    destruct (minWidths h1 !! (c + 1)%nat) as [w|] eqn:Hw.
    + rewrite (collapse_loop_hide h1 _ _ _ w) in Hrun by assumption.
      rewrite (collapse_loop_hide h2 _ _ _ w) by (assumption || by rewrite <- Hm).
      by apply IH.
    + destruct (error h1) eqn:He1.
      { rewrite collapse_loop_throw in Hrun by assumption. discriminate. }
      rewrite collapse_loop_report in Hrun by assumption.
      rewrite (collapse_loop_report h2) by (assumption || by rewrite <- Hm || by rewrite <- He).
      by apply IH.
Qed.

(** X13: widening never hides more.  If the pass completes at an
    available width, it completes at every larger width, and every data
    column it hides there it also hides at the smaller width.  (The toggle
    column, index 0, is the exception: it is hidden when nothing else
    is.) *)
Theorem wider_hides_less (h : helper) (t1 t2 : table) (w1 w2 : Z) (H1 : list nat) :
  w1 ≤ w2 →
  computed (redraw (set_availableWidth (Num w1) h) t1) = Some H1 →
  ∃ H2, computed (redraw (set_availableWidth (Num w2) h) t2) = Some H2
        ∧ ∀ n, n ≠ 0%nat → n ∈ H2 → n ∈ H1.
Proof.
  intros Hle. rewrite !computed_redraw. unfold hidden_columns, computeHiddenColumns.
  destruct (collapse_loop (set_availableWidth (Num w1) h) _ _) as [st1|ex st1] eqn:Hrun;
    [|discriminate].
  intros [= <-].
  destruct (collapse_loop_wider (set_availableWidth (Num w1) h) (set_availableWidth (Num w2) h)
              w1 w2 _ _ _ eq_refl eq_refl Hle eq_refl eq_refl Hrun)
    as (st2 & extra & Hrun2 & Hhide).
  cbn [columnsTotalWidth minWidths options set_availableWidth] in *.
  rewrite Hrun2. eexists. split; [reflexivity|].
  intros n Hnz Hn. apply elem_of_toggle_rule in Hn as [?|Hn]; [done|].
  apply toggle_rule_keeps. rewrite Hhide. apply elem_of_app. by left.
Qed.

Lemma wider_hides_less_witness :
  ∃ H2, computed (redraw (set_availableWidth (Num 400) (scenario HostFunction 0)) []) = Some H2
        ∧ ∀ n, n ≠ 0%nat → n ∈ H2 → n ∈ [5; 4]%nat.
Proof.
  apply (wider_hides_less (scenario HostFunction 0) [] [] 300 400 [5; 4]%nat).
  - lia.
  - reflexivity.
Defined.

(** *** The sub-rows and the click handler *)

Lemma content_rows_insert (t : table) g (siblings siblings' : list tr) :
  t !! g = Some siblings →
  filter (λ r, hasClass_sub_row r = false) siblings'
  = filter (λ r, hasClass_sub_row r = false) siblings →
  content_rows (<[g := siblings']> t) = content_rows t.
Proof.
  unfold content_rows. revert g. induction t as [|s0 t IH]; intros g Hg Hsame; [discriminate|].
  destruct g as [|g]; simpl in *.
  - injection Hg as ->. by rewrite !filter_app, Hsame.
  - rewrite !filter_app. f_equal. by apply IH.
Qed.

Lemma content_rows_inserted (siblings : list tr) k shown inner :
  filter (λ r, hasClass_sub_row r = false)
         (take (S k) siblings ++ SubTr shown inner :: drop (S k) siblings)
  = filter (λ r, hasClass_sub_row r = false) siblings.
Proof.
  rewrite filter_app, filter_cons_False by done.
  by rewrite <- filter_app, take_drop.
Qed.

Lemma content_rows_deleted (siblings : list tr) k :
  next_is_sub_row siblings k = true →
  filter (λ r, hasClass_sub_row r = false) (delete (S k) siblings)
  = filter (λ r, hasClass_sub_row r = false) siblings
  ∧ length siblings = S (length (delete (S k) siblings)).
Proof.
  unfold next_is_sub_row. destruct (siblings !! S k) as [r|] eqn:Hr; [|discriminate].
  intros Hsub. split.
  - rewrite <- (take_drop_middle siblings (S k) r Hr) at 2.
    rewrite delete_take_drop, !filter_app, filter_cons_False; [done|].
    rewrite Hsub. discriminate.
  - pose proof (lookup_lt_Some _ _ _ Hr). rewrite length_delete by eauto. lia.
Qed.

(** X14: [addSubRow] and [removeSubRow] add and remove sub-rows only.
    However [addSubRow] ends, and whatever row [removeSubRow] is given,
    the header and content rows of the table are afterwards the same
    rows, in the same order; [removeSubRow] removes one row or none. *)
Theorem sub_rows_only (h : helper) (t : table) (g k : nat) :
  content_rows (outcome (addSubRow h t g k)) = content_rows t
  ∧ content_rows (removeSubRow t g k) = content_rows t
  ∧ (row_count (removeSubRow t g k) ≤ row_count t
     ≤ S (row_count (removeSubRow t g k)))%nat.
Proof.
  split; [|split].
  - unfold addSubRow. destruct (t !! g) as [siblings|] eqn:Hg; [|reflexivity].
    destruct (siblings !! k) as [jTr|]; [|reflexivity].
    destruct (next_is_sub_row siblings k); [reflexivity|].
    destruct (build_pairs h 0 (drop 1 (find_td jTr))) as [ex|pairs]; [reflexivity|].
    simpl. apply (content_rows_insert t g siblings); [assumption|].
    apply content_rows_inserted.
  - unfold removeSubRow. destruct (t !! g) as [siblings|] eqn:Hg; [|reflexivity].
    destruct (next_is_sub_row siblings k) eqn:Hnext; [|reflexivity].
    apply (content_rows_insert t g siblings); [assumption|].
    by apply content_rows_deleted.
  - unfold removeSubRow. destruct (t !! g) as [siblings|] eqn:Hg; [|lia].
    destruct (next_is_sub_row siblings k) eqn:Hnext; [|lia].
    pose proof (row_count_insert t g siblings (delete (S k) siblings) Hg) as Hcount.
    destruct (content_rows_deleted siblings k Hnext) as [_ Hlen]. lia.
Qed.

Lemma addSubRow_abrupt h (t t' : table) g k ex :
  addSubRow h t g k = Abrupt ex t' →
  t' = t ∧ columnsToHide h = None
  ∧ ∃ siblings, t !! g = Some siblings ∧ next_is_sub_row siblings k = false.
Proof.
  unfold addSubRow. destruct (t !! g) as [siblings|] eqn:Hg; [|discriminate].
  destruct (siblings !! k) as [jTr|]; [|discriminate].
  destruct (next_is_sub_row siblings k) eqn:Hnext; [discriminate|].
  destruct (build_pairs h 0 (drop 1 (find_td jTr))) as [ex'|pairs] eqn:Hbuild; [|discriminate].
  intros [= _ <-]. split; [reflexivity|]. split; [|eauto].
  destruct (columnsToHide h) as [H|] eqn:HH; [|reflexivity].
  destruct (build_pairs_defined h H 0 (drop 1 (find_td jTr)) HH) as (pairs & Hdef & _).
  congruence.
Qed.

Lemma set_expanded_row e (t : table) g k siblings e0 cells :
  t !! g = Some siblings → siblings !! k = Some (Tr e0 cells) →
  set_expanded e t g k = <[g := <[k := Tr e cells]> siblings]> t.
Proof. intros Hg Hk. unfold set_expanded. by rewrite Hg, Hk. Qed.

Lemma next_is_sub_row_marked (siblings : list tr) k r :
  next_is_sub_row (<[k := r]> siblings) k = next_is_sub_row siblings k.
Proof. unfold next_is_sub_row. by rewrite list_lookup_insert_ne by lia. Qed.

Lemma insert_before_inserted {A} (s : list A) k (x y : A) :
  (k < length s)%nat →
  <[k := y]> (take (S k) s ++ x :: drop (S k) s)
  = take (S k) (<[k := y]> s) ++ x :: drop (S k) (<[k := y]> s).
Proof.
  intros Hk. rewrite insert_app_l by (rewrite length_take; lia).
  rewrite take_insert_lt by lia. by rewrite drop_insert_lt by lia.
Qed.

(** X15: the toggle button round trip.  On a row that is not marked
    expanded and has no sub-row, once a hidden list is stored, a click
    marks the row expanded and adds its sub-row right after it; a second
    click on the same button gives back the table exactly as it was before
    the first. *)
Theorem click_twice_restores (h : helper) (t : table) (g k : nat)
    (siblings : list tr) (cells : list cell) (H : list nat) :
  columnsToHide h = Some H →
  t !! g = Some siblings →
  siblings !! k = Some (Tr false cells) →
  next_is_sub_row siblings k = false →
  ∃ t1, on_click h t g k = Normal t1
        ∧ row_at t1 g k = Some (Tr true cells)
        ∧ hasClass_sub_row <$> row_at t1 g (S k) = Some true
        ∧ row_count t1 = S (row_count t)
        ∧ on_click h t1 g k = Normal t.
Proof.
  intros HH Hg Hk Hnext.
  pose proof (lookup_lt_Some _ _ _ Hg) as Hglen.
  pose proof (lookup_lt_Some _ _ _ Hk) as Hklen.
  set (s0 := <[k := Tr true cells]> siblings).
  assert (Hk0 : s0 !! k = Some (Tr true cells)) by (by apply list_lookup_insert_eq).
  assert (Hlen0 : length s0 = length siblings) by apply length_insert.
  assert (Hg0 : (<[g := s0]> t) !! g = Some s0) by (by apply list_lookup_insert_eq).
  assert (Hnext0 : next_is_sub_row s0 k = false)
    by (unfold s0; by rewrite next_is_sub_row_marked).
  destruct (addSubRow_inserts h (<[g := s0]> t) g k s0 true cells H HH Hg0 Hk0 Hnext0)
    as (pairs & _ & Hadd).
  rewrite list_insert_insert_eq in Hadd.
  set (s1 := take (S k) s0 ++ SubTr true pairs :: drop (S k) s0) in *.
  assert (Hg1 : (<[g := s1]> t) !! g = Some s1) by (by apply list_lookup_insert_eq).
  assert (Hk1 : s1 !! k = Some (Tr true cells)).
  { unfold s1. rewrite lookup_insert_after by lia. by rewrite decide_True by lia. }
  assert (Hsub1 : s1 !! S k = Some (SubTr true pairs)).
  { unfold s1. rewrite lookup_insert_after by lia.
    rewrite decide_False by lia. by rewrite decide_True. }
  exists (<[g := s1]> t).
  assert (Hfirst : on_click h t g k = Normal (<[g := s1]> t)).
  { unfold on_click. rewrite Hg. simpl. rewrite Hk.
    by rewrite (set_expanded_row true t g k siblings false cells). }
  split; [exact Hfirst|].
  split; [unfold row_at; rewrite Hg1; simpl; exact Hk1|].
  split; [unfold row_at; rewrite Hg1; simpl; by rewrite Hsub1|].
  split.
  { pose proof (row_count_insert t g siblings s1 Hg) as Hcount.
    assert (length s1 = S (length siblings)); [|lia].
    unfold s1. rewrite length_app, length_cons, length_take, length_drop. lia. }
  unfold on_click. rewrite Hg1. simpl. rewrite Hk1.
  rewrite (set_expanded_row false _ g k s1 true cells Hg1 Hk1).
  rewrite list_insert_insert_eq. unfold s1.
  rewrite insert_before_inserted by lia.
  unfold s0. rewrite list_insert_insert_eq, (list_insert_id siblings k) by assumption.
  unfold removeSubRow. rewrite list_lookup_insert_eq by assumption.
  rewrite next_is_sub_row_inserted by assumption.
  rewrite list_insert_insert_eq, delete_inserted by assumption.
  by rewrite list_insert_id.
Qed.

Lemma click_twice_restores_witness :
  ∃ t1, on_click (set_columnsToHide (Some [2%nat]) (scenario HostFunction 300))
                 [[Tr false [Cell td "+" true; Cell td "a" true; Cell td "b" true]]] 0 0
        = Normal t1
        ∧ row_at t1 0 0 = Some (Tr true [Cell td "+" true; Cell td "a" true; Cell td "b" true])
        ∧ hasClass_sub_row <$> row_at t1 0 1 = Some true
        ∧ row_count t1
          = S (row_count [[Tr false [Cell td "+" true; Cell td "a" true; Cell td "b" true]]])
        ∧ on_click (set_columnsToHide (Some [2%nat]) (scenario HostFunction 300)) t1 0 0
          = Normal [[Tr false [Cell td "+" true; Cell td "a" true; Cell td "b" true]]].
Proof.
  apply (click_twice_restores
           (set_columnsToHide (Some [2%nat]) (scenario HostFunction 300))
           [[Tr false [Cell td "+" true; Cell td "a" true; Cell td "b" true]]] 0 0
           [Tr false [Cell td "+" true; Cell td "a" true; Cell td "b" true]]
           [Cell td "+" true; Cell td "a" true; Cell td "b" true] [2%nat]);
    reflexivity.
Defined.

(** X16: a click throws only while no hidden list is stored, that is
    before the first [redraw].  The row is then left marked expanded
    without a sub-row, the table having as many rows as before; and the
    next click on the same button only removes the mark, giving back the
    table as it was. *)
Theorem click_before_first_redraw (h : helper) (t t' : table) (g k : nat) (ex : exn) :
  on_click h t g k = Abrupt ex t' →
  columnsToHide h = None
  ∧ t' = set_expanded true t g k
  ∧ (∃ cells, row_at t g k = Some (Tr false cells) ∧ row_at t' g k = Some (Tr true cells))
  ∧ row_count t' = row_count t
  ∧ on_click h t' g k = Normal t.
Proof.
  unfold on_click at 1.
  destruct (t !! g) as [siblings|] eqn:Hg; [|discriminate]. simpl.
  destruct (siblings !! k) as [[[|] cells|shown inner]|] eqn:Hk; try discriminate.
  intros Hthrow. apply addSubRow_abrupt in Hthrow as (-> & Hnone & s0 & Hg0 & Hnext0).
  pose proof (lookup_lt_Some _ _ _ Hg) as Hglen.
  pose proof (lookup_lt_Some _ _ _ Hk) as Hklen.
  rewrite (set_expanded_row true t g k siblings false cells Hg Hk) in *.
  rewrite list_lookup_insert_eq in Hg0 by assumption. injection Hg0 as <-.
  rewrite next_is_sub_row_marked in Hnext0.
  assert (Hk0 : <[k := Tr true cells]> siblings !! k = Some (Tr true cells))
    by (by apply list_lookup_insert_eq).
  assert (Hg1 : (<[g := <[k := Tr true cells]> siblings]> t) !! g
                = Some (<[k := Tr true cells]> siblings))
    by (by apply list_lookup_insert_eq).
  split; [assumption|]. split; [reflexivity|]. split.
  { exists cells. unfold row_at. rewrite Hg, Hg1. simpl. by rewrite Hk, Hk0. }
  split.
  { pose proof (row_count_insert t g siblings (<[k := Tr true cells]> siblings) Hg) as Hcount.
    rewrite length_insert in Hcount. lia. }
  unfold on_click. rewrite Hg1. simpl. rewrite Hk0.
  rewrite (set_expanded_row false _ g k _ true cells Hg1 Hk0).
  rewrite !list_insert_insert_eq, (list_insert_id siblings k), list_insert_id by assumption.
  unfold removeSubRow. by rewrite Hg, Hnext0.
Qed.

Lemma click_before_first_redraw_witness :
  columnsToHide (scenario HostFunction 600) = None
  ∧ [[Tr true [Cell td "+" true; Cell td "a" true; Cell td "b" true]]]
    = set_expanded true [[Tr false [Cell td "+" true; Cell td "a" true; Cell td "b" true]]] 0 0
  ∧ (∃ cells,
        row_at [[Tr false [Cell td "+" true; Cell td "a" true; Cell td "b" true]]] 0 0
        = Some (Tr false cells)
        ∧ row_at [[Tr true [Cell td "+" true; Cell td "a" true; Cell td "b" true]]] 0 0
          = Some (Tr true cells))
  ∧ row_count [[Tr true [Cell td "+" true; Cell td "a" true; Cell td "b" true]]]
    = row_count [[Tr false [Cell td "+" true; Cell td "a" true; Cell td "b" true]]]
  ∧ on_click (scenario HostFunction 600)
             [[Tr true [Cell td "+" true; Cell td "a" true; Cell td "b" true]]] 0 0
    = Normal [[Tr false [Cell td "+" true; Cell td "a" true; Cell td "b" true]]].
Proof.
  apply (click_before_first_redraw (scenario HostFunction 600)
           [[Tr false [Cell td "+" true; Cell td "a" true; Cell td "b" true]]]
           [[Tr true [Cell td "+" true; Cell td "a" true; Cell td "b" true]]] 0 0
           (TypeError "Cannot read property 'indexOf' of undefined")).
  reflexivity.
Defined.

(** *** listen and the resize handler *)

Lemma redraw_keeps_measurements (h : helper) (t : table) :
  options (outcome (redraw h t)).1 = options h
  ∧ error (outcome (redraw h t)).1 = error h
  ∧ originalAvailableWidth (outcome (redraw h t)).1 = originalAvailableWidth h
  ∧ initWindowWidth (outcome (redraw h t)).1 = initWindowWidth h
  ∧ minWidths (outcome (redraw h t)).1 = minWidths h
  ∧ availableWidth (outcome (redraw h t)).1 = availableWidth h
  ∧ columnsTotalWidth (outcome (redraw h t)).1 = columnsTotalWidth h.
Proof.
  unfold redraw. destruct (computeHiddenColumns h) as [[H log]|ex [H log]]; repeat split.
Qed.

(** X17: what [listen] leaves in the helper, whether the first [redraw]
    ran, was skipped or threw.  The stored total is the sum of the stored
    minimum widths, namely the outer widths of the cells of the first row
    measured after the toggle column was added; the available width is the
    original available width; and with an explicit padding that is the
    outer width of the container less the padding. *)
Theorem listen_bookkeeping (b : browser) (o : options_t) (this_error : method) (m : markup) :
  ∃ h t, outcome (listen b o this_error m) = (h, t)
         ∧ measured h
         ∧ minWidths h = getColumnMinWidths b (addColumn (Some 0) (extraColumnContent o) m)
         ∧ columnsTotalWidth h
           = total (measured_widths b
                      (length (first_row (addColumn (Some 0) (extraColumnContent o) m))))
         ∧ availableWidth h = originalAvailableWidth h
         ∧ initWindowWidth h = window_width b
         ∧ error h = this_error
         ∧ (∀ px, padding o = Padding px →
                  availableWidth h = Num (container_outerWidth b - px)).
Proof.
  unfold listen.
  set (o' := resolve_labels b o m).
  assert (Hcontent : extraColumnContent o' = extraColumnContent o)
    by (unfold o', resolve_labels; by destruct (columnLabels o)).
  assert (Hpadding : padding o' = padding o)
    by (unfold o', resolve_labels; by destruct (columnLabels o)).
  rewrite Hcontent, Hpadding.
  set (m' := addColumn (Some 0) (extraColumnContent o) m).
  set (h0 := Helper o' this_error _ _ _ _ _ None []).
  set (t0 := fmap (M:=list) (Tr false) <$> m').
  assert (Hh : ∃ h t, outcome (if num_lt (availableWidth h0) (columnsTotalWidth h0)
                               then redraw h0 t0 else Normal (h0, t0)) = (h, t)
                      ∧ options h = o' ∧ error h = this_error
                      ∧ originalAvailableWidth h = originalAvailableWidth h0
                      ∧ initWindowWidth h = window_width b
                      ∧ minWidths h = getColumnMinWidths b m'
                      ∧ availableWidth h = originalAvailableWidth h0
                      ∧ columnsTotalWidth h = sum (getColumnMinWidths b m')).
  { destruct (num_lt (availableWidth h0) (columnsTotalWidth h0)).
    - destruct (redraw_keeps_measurements h0 t0) as (? & ? & ? & ? & ? & ? & ?).
      destruct (outcome (redraw h0 t0)) as [h t]. exists h, t. repeat split; assumption.
    - exists h0, t0. repeat split. }
  destruct Hh as (h & t & Hout & Ho & He & Horig & Hinit & Hmin & Havail & Htotal).
  exists h, t. split; [exact Hout|].
  split; [unfold measured; by rewrite Htotal, Hmin|].
  split; [assumption|]. split; [by rewrite Htotal, sum_measured|].
  split; [by rewrite Havail, Horig|]. split; [assumption|]. split; [assumption|].
  intros px Hpx. rewrite Havail. unfold h0. cbn [originalAvailableWidth].
  by rewrite Hpx.
Qed.

(** X18: with the labels on ["auto"], the labels [listen] stores are the
    texts of the cells of the first row as they were before the toggle
    column was added, so the label at index [i] is the header of data
    column [i], the column [addSubRow] labels with it; an explicit list of
    labels is kept as given. *)
Theorem listen_labels (b : browser) (o : options_t) (this_error : method) (m : markup) :
  labels_of (options (outcome (listen b o this_error m)).1)
  = match columnLabels o with
    | LabelsAuto => cell_text b <$> first_row m
    | Labels l => l
    end.
Proof.
  unfold listen.
  set (h0 := Helper _ this_error _ _ _ _ _ None []).
  set (t0 := fmap (M:=list) (Tr false) <$> _).
  assert (Ho : options (outcome (if num_lt (availableWidth h0) (columnsTotalWidth h0)
                                 then redraw h0 t0 else Normal (h0, t0))).1
               = resolve_labels b o m).
  { destruct (num_lt (availableWidth h0) (columnsTotalWidth h0)); [|reflexivity].
    by destruct (redraw_keeps_measurements h0 t0) as (-> & _). }
  rewrite Ho. unfold resolve_labels, labels_of.
  destruct (columnLabels o) eqn:Hl; simpl; [reflexivity | by rewrite Hl].
Qed.

Lemma num_sub_same (a : number) (z : Z) : num_sub a (z - z) = a.
Proof. destruct a as [x|]; simpl; [f_equal; lia | reflexivity]. Qed.

(** X19: the resize handler keeps no memory of earlier resizes.  The
    available width it sets is the original available width less the
    shrinkage of the window since [listen]; so after any resize a second
    one computes the hidden list a first one to the same window width
    would have, and a resize back to the initial window width restores the
    original available width.  The measurements of [listen] stay. *)
Theorem resize_depends_on_last_width (w1 w2 : Z) (h h1 : helper) (t t1 : table) :
  on_resize w1 h t = Normal (h1, t1) →
  computed (on_resize w2 h1 t1) = computed (on_resize w2 h t)
  ∧ availableWidth (outcome (on_resize w2 h1 t1)).1
    = num_sub (originalAvailableWidth h) (initWindowWidth h - w2)
  ∧ availableWidth (outcome (on_resize (initWindowWidth h) h1 t1)).1
    = originalAvailableWidth h
  ∧ minWidths h1 = minWidths h
  ∧ columnsTotalWidth h1 = columnsTotalWidth h
  ∧ options h1 = options h.
Proof.
  intros Hrun. unfold on_resize in Hrun.
  destruct (redraw_keeps_measurements
              (set_availableWidth
                 (num_sub (originalAvailableWidth h) (initWindowWidth h - w1)) h) t)
    as (Ho & He & Horig & Hinit & Hmin & _ & Htotal).
  rewrite Hrun in *. cbn [outcome fst set_availableWidth options error originalAvailableWidth
                          initWindowWidth minWidths columnsTotalWidth] in *.
  assert (Hwidth : ∀ w, availableWidth (outcome (on_resize w h1 t1)).1
                        = num_sub (originalAvailableWidth h) (initWindowWidth h - w)).
  { intros w. unfold on_resize.
    destruct (redraw_keeps_measurements
                (set_availableWidth
                   (num_sub (originalAvailableWidth h1) (initWindowWidth h1 - w)) h1) t1)
      as (_ & _ & _ & _ & _ & -> & _).
    cbn [availableWidth set_availableWidth]. by rewrite Horig, Hinit. }
  split.
  - unfold on_resize. rewrite !computed_redraw. unfold hidden_columns.
    rewrite (computeHiddenColumns_ext
               (set_availableWidth _ h1) (set_availableWidth
                 (num_sub (originalAvailableWidth h) (initWindowWidth h - w2)) h));
      cbn [set_availableWidth options error minWidths columnsTotalWidth availableWidth];
      [reflexivity | congruence..].
  - split; [apply Hwidth|]. split; [by rewrite Hwidth, num_sub_same|].
    repeat split; assumption.
Qed.

Lemma resize_depends_on_last_width_witness :
  ∃ h1 t1,
    on_resize 700 (scenario HostFunction 1000) [] = Normal (h1, t1)
    ∧ computed (on_resize 500 h1 t1) = computed (on_resize 500 (scenario HostFunction 1000) [])
    ∧ availableWidth (outcome (on_resize 500 h1 t1)).1 = Num 1500.
Proof.
  destruct (resize_depends_on_last_width 700 500 (scenario HostFunction 1000) _ [] _ eq_refl)
    as (Hsame & Hwidth & _).
  eexists _, _. split; [reflexivity|]. split; [exact Hsame | exact Hwidth].
Defined.

(** X20: when [listen] completes without storing a hidden list, the table
    fitted: the available width was not below the total of the minimum
    widths, and the table is the author's table with the toggle column
    added and nothing hidden.  The first resize notification that leaves
    the window as wide as it was then stores [[0]]: it is that
    notification, not [listen], that hides the toggle column. *)
Theorem listen_without_hidden_list (b : browser) (o : options_t) (this_error : method)
    (m : markup) (h : helper) (t : table) :
  listen b o this_error m = Normal (h, t) →
  columnsToHide h = None →
  num_lt (availableWidth h) (columnsTotalWidth h) = false
  ∧ t = fmap (M:=list) (Tr false) <$> addColumn (Some 0) (extraColumnContent o) m
  ∧ computed (on_resize (window_width b) h t) = Some [0%nat].
Proof.
  unfold listen.
  set (o' := resolve_labels b o m).
  assert (Hcontent : extraColumnContent o' = extraColumnContent o)
    by (unfold o', resolve_labels; by destruct (columnLabels o)).
  rewrite Hcontent.
  set (h0 := Helper o' this_error _ _ _ _ _ None []).
  set (t0 := fmap (M:=list) (Tr false) <$> _).
  destruct (num_lt (availableWidth h0) (columnsTotalWidth h0)) eqn:Hfit.
  { unfold redraw. destruct (computeHiddenColumns h0) as [[H log]|ex [H log]];
      [|discriminate]. intros [= <- _]. discriminate. }
  intros [= <- <-] _. split; [exact Hfit|]. split; [reflexivity|].
  unfold on_resize. rewrite computed_redraw. unfold hidden_columns, computeHiddenColumns.
  rewrite collapse_loop_fits; [reflexivity|].
  cbn [availableWidth set_availableWidth l_columnsTotalWidth].
  change (initWindowWidth h0) with (window_width b).
  rewrite num_sub_same. exact Hfit.
Qed.

Lemma listen_without_hidden_list_witness :
  ∃ h t,
    listen (sample_browser 1000) (sample_options [4; 3; 2; 1; 0]%nat) Undefined sample_markup
    = Normal (h, t)
    ∧ num_lt (availableWidth h) (columnsTotalWidth h) = false
    ∧ computed (on_resize 1200 h t) = Some [0%nat].
Proof.
  destruct (listen_without_hidden_list (sample_browser 1000)
              (sample_options [4; 3; 2; 1; 0]%nat) Undefined sample_markup _ _ eq_refl eq_refl)
    as (Hfit & _ & Hresize).
  eexists _, _. split; [reflexivity|]. split; [exact Hfit | exact Hresize].
Defined.

(** *** sum *)

Lemma total_Permutation (l1 l2 : list Z) : l1 ≡ₚ l2 → total l1 = total l2.
Proof.
  unfold total. induction 1 as [|x l1 l2 _ IH|x y l|l1 l2 l3 _ IH1 _ IH2]; simpl; lia.
Qed.

Lemma sum_map_to_list (arrObj : gmap nat Z) :
  sum arrObj = total ((map_to_list arrObj).*2).
Proof.
  unfold sum, for_in. rewrite foldl_add, Z.add_0_l.
  apply total_Permutation. by rewrite merge_sort_Permutation.
Qed.

(** X21: [sum] adds up the values of the object whatever its keys: the
    empty object sums to 0, and setting a key the object does not have
    adds the value set. *)
Theorem sum_insert (arrObj : gmap nat Z) (key : nat) (value : Z) :
  sum (∅ : gmap nat Z) = 0
  ∧ (arrObj !! key = None → sum (<[key := value]> arrObj) = sum arrObj + value).
Proof.
  split; [reflexivity|].
  intros Hfresh. rewrite !sum_map_to_list.
  rewrite (total_Permutation _ ((key, value) :: map_to_list arrObj).*2).
  - rewrite fmap_cons. unfold total. simpl. lia.
  - by rewrite map_to_list_insert.
Qed.

(** *** addSubRow on any row *)

(** X22: [addSubRow] makes its pair rows from the [td] cells of the row
    alone, leaving the first [td] out.  On any row without a sub-row, once
    a hidden list [H] is stored, the pair row at index [i] holds the
    content of the [td] at index [i + 1] among the [td]s of the row, and its
    display follows column [i + 1] of [H] and index [i] of the filter
    list.  A [th] in the row therefore shifts the contents against the
    columns. *)
Theorem addSubRow_pairs_follow_td (h : helper) (t : table) (g k : nat)
    (siblings : list tr) (e : bool) (cells : list cell) (H : list nat) :
  columnsToHide h = Some H →
  t !! g = Some siblings →
  siblings !! k = Some (Tr e cells) →
  next_is_sub_row siblings k = false →
  ∃ pairs,
    addSubRow h t g k
    = Normal (<[g := take (S k) siblings ++ SubTr true pairs :: drop (S k) siblings]> t)
    ∧ length pairs = (length (filter (λ c, cell_tag c = td) cells) - 1)%nat
    ∧ ∀ i p, pairs !! i = Some p →
             pair_rule (expandedColumnFilterIndexes (options h)) H i p
             ∧ ∃ c, filter (λ c, cell_tag c = td) cells !! S i = Some c
                    ∧ inner_cells p =
                      [Cell td (default "undefined" (labels_of (options h) !! i)) true;
                       Cell td (cell_html c) true].
Proof.
  intros HH Hg Hk Hnext.
  destruct (addSubRow_inserts h t g k siblings e cells H HH Hg Hk Hnext)
    as (pairs & Hbuild & Hadd).
  destruct (build_pairs_defined h H 0 (drop 1 (filter (λ c, cell_tag c = td) cells)) HH)
    as (pairs' & Hbuild' & Hlen & Hpairs).
  rewrite Hbuild in Hbuild'. injection Hbuild' as <-.
  exists pairs. split; [exact Hadd|]. split; [by rewrite Hlen, length_drop|].
  intros i p Hi. destruct (Hpairs i p Hi) as (Hrule & c & Hc & Hcells).
  split; [exact Hrule|]. exists c. rewrite lookup_drop in Hc. split; assumption.
Qed.

Lemma addSubRow_pairs_follow_td_witness :
  ∃ pairs,
    addSubRow (set_columnsToHide (Some [2; 3]%nat) (scenario HostFunction 300))
      [[Tr true [Cell th "" true; Cell th "1" true; Cell td "a" true; Cell td "b" true]]] 0 0
    = Normal [[Tr true [Cell th "" true; Cell th "1" true; Cell td "a" true; Cell td "b" true];
               SubTr true pairs]]
    ∧ length pairs = 1%nat.
Proof.
  destruct (addSubRow_pairs_follow_td
              (set_columnsToHide (Some [2; 3]%nat) (scenario HostFunction 300))
              [[Tr true [Cell th "" true; Cell th "1" true; Cell td "a" true; Cell td "b" true]]]
              0 0
              [Tr true [Cell th "" true; Cell th "1" true; Cell td "a" true; Cell td "b" true]]
              true [Cell th "" true; Cell th "1" true; Cell td "a" true; Cell td "b" true]
              [2; 3]%nat eq_refl eq_refl eq_refl eq_refl)
    as (pairs & Hadd & Hlen & _).
  exists pairs. split; [exact Hadd | exact Hlen].
Defined.

(** X23: on a row that has at most one [td], a header row of [th] cells
    for one, [addSubRow] has no pair row to make.  It then never reads the
    hidden list: it completes even before the first [redraw], and inserts
    a sub-row whose table is empty. *)
Theorem addSubRow_without_data_cells (h : helper) (t : table) (g k : nat)
    (siblings : list tr) (e : bool) (cells : list cell) :
  t !! g = Some siblings →
  siblings !! k = Some (Tr e cells) →
  next_is_sub_row siblings k = false →
  (length (filter (λ c, cell_tag c = td) cells) ≤ 1)%nat →
  addSubRow h t g k
  = Normal (<[g := take (S k) siblings ++ SubTr true [] :: drop (S k) siblings]> t).
Proof.
  intros Hg Hk Hnext Hfew. unfold addSubRow. rewrite Hg, Hk, Hnext.
  unfold find_td. simpl.
  destruct (filter (λ c, cell_tag c = td) cells) as [|c [|c' rest]];
    [reflexivity | reflexivity | simpl in Hfew; lia].
Qed.

Lemma addSubRow_without_data_cells_witness :
  addSubRow (scenario Undefined 600) [[Tr false [Cell th "+" true; Cell th "#" true]]] 0 0
  = Normal [[Tr false [Cell th "+" true; Cell th "#" true]; SubTr true []]].
Proof.
  apply (addSubRow_without_data_cells (scenario Undefined 600)
           [[Tr false [Cell th "+" true; Cell th "#" true]]] 0 0
           [Tr false [Cell th "+" true; Cell th "#" true]] false
           [Cell th "+" true; Cell th "#" true]); try reflexivity.
  simpl. lia.
Defined.

(** *** When the layout pass throws *)

Lemma collapse_loop_abrupt h queue st st' ex :
  collapse_loop h queue st = Abrupt ex st' →
  error h = Undefined
  ∧ ex = TypeError "this.error is not a function"
  ∧ l_reported st' = l_reported st
  ∧ ∃ c, c ∈ queue ∧ minWidths h !! (c + 1)%nat = None.
Proof.
  revert st. induction queue as [|c queue IH]; intros st Hrun.
  - rewrite collapse_loop_exhausted in Hrun. discriminate.
  - destruct (num_lt (availableWidth h) (l_columnsTotalWidth st)) eqn:Hlt.
    2:{ rewrite collapse_loop_fits in Hrun by assumption. discriminate. }
    destruct (minWidths h !! (c + 1)%nat) as [w|] eqn:Hw.
    + rewrite (collapse_loop_hide _ _ _ _ w) in Hrun by assumption.
      apply IH in Hrun as (He & Hex & Hrep & c' & Hc' & Hnone).
      repeat split; try assumption. exists c'. split; [by right | assumption].
    + destruct (error h) eqn:He.
      * rewrite collapse_loop_throw in Hrun by assumption. injection Hrun as <- <-.
        repeat split. exists c. split; [left | assumption].
      * rewrite collapse_loop_report in Hrun by assumption.
        apply IH in Hrun as (? & _). discriminate.
Qed.

Lemma collapse_loop_measured h queue st :
  (∀ c, c ∈ queue → is_Some (minWidths h !! (c + 1)%nat)) →
  ∃ st', collapse_loop h queue st = Normal st' ∧ l_reported st' = l_reported st.
Proof.
  revert st. induction queue as [|c queue IH]; intros st Hall.
  - exists st. split; [apply collapse_loop_exhausted | reflexivity].
  - destruct (num_lt (availableWidth h) (l_columnsTotalWidth st)) eqn:Hlt.
    2:{ exists st. split; [by apply collapse_loop_fits | reflexivity]. }
    destruct (Hall c) as [w Hw]; [left|].
    rewrite (collapse_loop_hide _ _ _ _ w) by assumption.
    edestruct IH as (st' & Hst' & Hrep); [intros c' Hc'; apply Hall; by right|].
    exists st'. split; [exact Hst' | exact Hrep].
Qed.

(** X24: [redraw] throws in one case only: the object has no [error]
    method and the priority list names a column without a measured width.
    The exception is the [TypeError] of the call, nothing has been
    reported, and the table and the stored hidden list are as they were
    before the pass. *)
Theorem redraw_throws_only_on_unmeasured (h h' : helper) (t t' : table) (ex : exn) :
  redraw h t = Abrupt ex (h', t') →
  error h = Undefined
  ∧ ex = TypeError "this.error is not a function"
  ∧ (∃ c, c ∈ collapsibleColumnIndexes (options h) ∧ minWidths h !! (c + 1)%nat = None)
  ∧ t' = t
  ∧ columnsToHide h' = columnsToHide h
  ∧ diagnostics h' = diagnostics h.
Proof.
  unfold redraw, computeHiddenColumns.
  destruct (collapse_loop _ _ _) as [st|ex' st] eqn:Hrun; [discriminate|].
  intros [= <- <- <-].
  apply collapse_loop_abrupt in Hrun as (He & Hex & Hrep & Hc).
  repeat split; try assumption.
  cbn [diagnostics set_diagnostics]. rewrite Hrep. cbn. apply app_nil_r.
Qed.

Lemma redraw_throws_only_on_unmeasured_witness :
  error (scenario Undefined 300) = Undefined
  ∧ TypeError "this.error is not a function" = TypeError "this.error is not a function"
  ∧ (∃ c, c ∈ collapsibleColumnIndexes (options (scenario Undefined 300))
          ∧ minWidths (scenario Undefined 300) !! (c + 1)%nat = None)
  ∧ [] = ([] : table)
  ∧ columnsToHide (scenario Undefined 300) = columnsToHide (scenario Undefined 300)
  ∧ diagnostics (scenario Undefined 300) = diagnostics (scenario Undefined 300).
Proof.
  apply (redraw_throws_only_on_unmeasured (scenario Undefined 300) (scenario Undefined 300)
           [] [] (TypeError "this.error is not a function")).
  reflexivity.
Defined.

Lemma redraw_measured_completes (h : helper) (t : table) :
  (∀ c, c ∈ collapsibleColumnIndexes (options h) → is_Some (minWidths h !! (c + 1)%nat)) →
  ∃ h' t' H, redraw h t = Normal (h', t')
             ∧ columnsToHide h' = Some H
             ∧ diagnostics h' = diagnostics h.
Proof.
  intros Hall. unfold redraw, computeHiddenColumns.
  destruct (collapse_loop_measured h (collapsibleColumnIndexes (options h))
              (Locals (columnsTotalWidth h) ((for_in (minWidths h)).*1) [] []) Hall)
    as (st & -> & Hrep).
  do 3 eexists. split; [reflexivity|]. split; [reflexivity|].
  cbn [diagnostics set_columnsToHide set_diagnostics]. rewrite Hrep. cbn. apply app_nil_r.
Qed.

(** X25: when every column the priority list names has a measured width,
    [redraw] completes whatever the available width and whether or not the
    object has an [error] method; it reports nothing and stores a hidden
    list. *)
Theorem redraw_completes_on_measured (h : helper) (t : table) :
  (∀ c, c ∈ collapsibleColumnIndexes (options h) → is_Some (minWidths h !! (c + 1)%nat)) →
  ∃ h' t' H, redraw h t = Normal (h', t')
             ∧ columnsToHide h' = Some H
             ∧ diagnostics h' = diagnostics h.
Proof.
  intros Hall. unfold redraw, computeHiddenColumns.
  destruct (collapse_loop_measured h (collapsibleColumnIndexes (options h))
              (Locals (columnsTotalWidth h) ((for_in (minWidths h)).*1) [] []) Hall)
    as (st & Hrun & Hrep).
  rewrite Hrun.
  exists (set_columnsToHide
            (Some (toggle_rule (expandedColumnFilterIndexes (options h)) (l_columnsToHide st)))
            (set_diagnostics (diagnostics h ++ l_reported st) h)).
  do 2 eexists. split; [reflexivity|]. split; [reflexivity|].
  cbn [diagnostics set_columnsToHide set_diagnostics]. rewrite Hrep. cbn. apply app_nil_r.
Qed.

Lemma redraw_completes_on_measured_witness :
  ∃ h' t' H,
    redraw (sample_helper Undefined [40; 80; 80] [1; 0]%nat [] 100) [] = Normal (h', t')
    ∧ columnsToHide h' = Some H
    ∧ diagnostics h' = diagnostics (sample_helper Undefined [40; 80; 80] [1; 0]%nat [] 100).
Proof.
  apply (redraw_completes_on_measured (sample_helper Undefined [40; 80; 80] [1; 0]%nat [] 100) []).
  intros c Hc.
  apply elem_of_cons in Hc as [->|Hc]; [by eexists|].
  apply list_elem_of_singleton in Hc as ->. by eexists.
Defined.

(** *** When listen is safe *)

Lemma addColumn_tr_first_row content (row : list cell) :
  (addColumn_tr content (Some 0) row).2 = with_new_cell content 0 row.
Proof.
  destruct row as [|c row]; [reflexivity|].
  by rewrite addColumn_tr_first.
Qed.

Lemma first_row_addColumn content (m : markup) :
  first_row (addColumn (Some 0) content m) = with_new_cell content 0 (first_row m).
Proof.
  unfold addColumn, first_row. induction m as [|rows m IH]; [reflexivity|].
  cbn [addColumn_groups]. destruct rows as [|row rows].
  - cbn [addColumn_rows].
    destruct (addColumn_groups content (Some 0) m) as [p gs]. exact IH.
  - cbn [addColumn_rows].
    pose proof (addColumn_tr_first_row content row) as Hrow.
    destruct (addColumn_tr content (Some 0) row) as [p row'].
    destruct (addColumn_rows content p rows) as [p2 rs].
    destruct (addColumn_groups content p2 m) as [p3 gs].
    exact Hrow.
Qed.

Lemma getColumnMinWidths_measured (b : browser) (m : markup) (index : nat) :
  (index < length (first_row m))%nat → is_Some (getColumnMinWidths b m !! index).
Proof.
  intros Hlt. exists (cell_outerWidth b index).
  rewrite getColumnMinWidths_indexed. apply elem_of_list_to_map.
  - rewrite indexed_keys. apply NoDup_seq.
  - apply list_elem_of_fmap. exists index. split; [reflexivity|].
    apply elem_of_seq. lia.
Qed.

(** X26: [listen] is safe when the priority list names data columns of
    the first row only.  If every index in [collapsibleColumnIndexes] is
    below the number of cells the first row has before the toggle column
    is added, then [listen] completes and reports nothing, whether or not
    the object has an [error] method, and every column the list names has
    a measured width, so that no later layout pass throws either. *)
Theorem listen_completes_on_valid_candidates (b : browser) (o : options_t)
    (this_error : method) (m : markup) :
  (∀ c, c ∈ collapsibleColumnIndexes o → (c < length (first_row m))%nat) →
  ∃ h t, listen b o this_error m = Normal (h, t)
         ∧ diagnostics h = []
         ∧ (∀ c, c ∈ collapsibleColumnIndexes (options h) →
                 is_Some (minWidths h !! (c + 1)%nat))
         ∧ (∀ w, ∃ h' t', on_resize w h t = Normal (h', t')).
Proof.
  intros Hvalid. unfold listen.
  set (o' := resolve_labels b o m).
  assert (Hcontent : extraColumnContent o' = extraColumnContent o)
    by (unfold o', resolve_labels; by destruct (columnLabels o)).
  assert (Hlist : collapsibleColumnIndexes o' = collapsibleColumnIndexes o)
    by (unfold o', resolve_labels; by destruct (columnLabels o)).
  rewrite Hcontent.
  set (m' := addColumn (Some 0) (extraColumnContent o) m).
  set (h0 := Helper o' this_error _ _ _ _ _ None []).
  set (t0 := fmap (M:=list) (Tr false) <$> m').
  assert (Hmeasured : ∀ c, c ∈ collapsibleColumnIndexes o →
                           is_Some (getColumnMinWidths b m' !! (c + 1)%nat)).
  { intros c Hc. apply getColumnMinWidths_measured.
    unfold m'. rewrite first_row_addColumn.
    specialize (Hvalid c Hc). destruct (first_row m) as [|c0 row]; [simpl in Hvalid; lia|].
    unfold with_new_cell. simpl in *. lia. }
  assert (Hresize : ∀ h, options h = o' → minWidths h = getColumnMinWidths b m' →
                         ∀ t w, ∃ h' t', on_resize w h t = Normal (h', t')).
  { intros h Ho Hm t w. unfold on_resize.
    destruct (redraw_measured_completes
                (set_availableWidth
                   (num_sub (originalAvailableWidth h) (initWindowWidth h - w)) h) t)
      as (h' & t' & H & Hrun & _).
    - cbn [options minWidths set_availableWidth]. rewrite Ho, Hlist, Hm. exact Hmeasured.
    - eauto. }
  destruct (num_lt (availableWidth h0) (columnsTotalWidth h0)).
  - destruct (redraw_measured_completes h0 t0) as (h' & t' & H & Hrun & _ & Hdiag);
      [cbn [options minWidths h0]; rewrite Hlist; exact Hmeasured|].
    destruct (redraw_keeps_measurements h0 t0) as (Ho & _ & _ & _ & Hm & _).
    rewrite Hrun in Ho, Hm. cbn [outcome fst] in Ho, Hm.
    exists h', t'. split; [exact Hrun|]. split; [exact Hdiag|]. split.
    + rewrite Ho, Hm. cbn [options minWidths h0]. rewrite Hlist. exact Hmeasured.
    + intros w. by apply Hresize.
  - exists h0, t0. split; [reflexivity|]. split; [reflexivity|]. split.
    + cbn [options minWidths h0]. rewrite Hlist. exact Hmeasured.
    + intros w. by apply Hresize.
Qed.

Lemma listen_completes_on_valid_candidates_witness :
  ∃ h t, listen (sample_browser 300) (sample_options [4; 3; 2; 1; 0]%nat) Undefined sample_markup
         = Normal (h, t)
         ∧ diagnostics h = [].
Proof.
  destruct (listen_completes_on_valid_candidates (sample_browser 300)
              (sample_options [4; 3; 2; 1; 0]%nat) Undefined sample_markup)
    as (h & t & Hrun & Hdiag & _).
  - intros c Hc. change (length (first_row sample_markup)) with 5%nat.
    repeat (apply elem_of_cons in Hc as [->|Hc]; [lia|]). inversion Hc.
  - exists h, t. split; [exact Hrun | exact Hdiag].
Defined.

(** *** The detail rows *)





(** *** A column is hidden only when it has to be *)

Lemma sum_delete (arrObj : gmap nat Z) (key : nat) :
  sum (delete key arrObj) = sum arrObj - default 0 (arrObj !! key).
Proof.
  destruct (arrObj !! key) as [w|] eqn:Hkey; simpl.
  - rewrite !sum_map_to_list.
    rewrite <- (total_Permutation _ _
                  (fmap_Permutation snd _ _ (map_to_list_delete arrObj key w Hkey))).
    rewrite fmap_cons. unfold total. simpl. lia.
  - rewrite delete_id by assumption. lia.
Qed.

Lemma sum_shown_after (minWidths : gmap nat Z) (hidden : list nat) :
  NoDup hidden →
  sum (shown_after minWidths hidden) = sum minWidths - widths_of minWidths hidden.
Proof.
  unfold shown_after. induction 1 as [|n hidden Hfresh _ IH].
  - simpl. unfold widths_of, total. cbn. lia.
  - cbn [foldr]. rewrite sum_delete, IH, widths_of_cons.
    rewrite lookup_foldr_delete_not_elem_of by assumption. lia.
Qed.

Lemma NoDup_collapsed (minWidths : gmap nat Z) (consumed : list nat) :
  NoDup consumed → NoDup (collapsed minWidths consumed).
Proof.
  intros Hnd. unfold collapsed. apply NoDup_filter.
  apply (NoDup_fmap_2_strong (λ c, (c + 1)%nat)); [|assumption].
  intros x y _ _ Heq. lia.
Qed.

(** X11: with a priority list that names no column twice, a completed
    layout pass hides the measured candidates of a front part of the list,
    and it takes a candidate only while the table does not fit: before
    each candidate it consumed, the minimum widths of the columns not yet
    hidden (the toggle column among them) added up to more than the
    available width. *)
Theorem redraw_hides_only_when_needed (h : helper) (t : table) (H : list nat) :
  measured h →
  NoDup (collapsibleColumnIndexes (options h)) →
  computed (redraw h t) = Some H →
  ∃ consumed rest,
    collapsibleColumnIndexes (options h) = consumed ++ rest
    ∧ H = toggle_rule (expandedColumnFilterIndexes (options h))
                      (collapsed (minWidths h) consumed)
    ∧ (∀ p c tail, consumed = p ++ c :: tail →
         num_lt (availableWidth h)
           (sum (shown_after (minWidths h) (collapsed (minWidths h) p)))
         = true).
Proof.
  intros Hmeasured Hnd. rewrite computed_redraw. unfold hidden_columns, computeHiddenColumns.
  destruct (collapse_loop _ _ _) as [st|ex st] eqn:Hrun; [|discriminate].
  intros [= <-].
  apply collapse_loop_account in Hrun
    as (consumed & rest & Hq & Hhide & _ & _ & Hneeded).
  cbn [l_columnsToHide l_columnsTotalWidth] in *.
  exists consumed, rest. split; [assumption|]. split; [by rewrite Hhide|].
  intros p c tail Hp.
  rewrite sum_shown_after.
  - rewrite <- Hmeasured. by apply (Hneeded p c tail).
  - apply NoDup_collapsed. rewrite Hq, Hp in Hnd.
    apply NoDup_app in Hnd as [Hnd _]. by apply NoDup_app in Hnd as [Hnd _].
Qed.

Lemma redraw_hides_only_when_needed_witness :
  ∃ consumed rest,
    collapsibleColumnIndexes (options (scenario HostFunction 300)) = consumed ++ rest
    ∧ [5; 4]%nat = toggle_rule [] (collapsed (minWidths (scenario HostFunction 300)) consumed)
    ∧ (∀ p c tail, consumed = p ++ c :: tail →
         num_lt (Num 300)
           (sum (shown_after (minWidths (scenario HostFunction 300))
                   (collapsed (minWidths (scenario HostFunction 300)) p)))
         = true).
Proof.
  apply (redraw_hides_only_when_needed (scenario HostFunction 300) [] [5; 4]%nat).
  - reflexivity.
  - apply (bool_decide_unpack _). by vm_compute.
  - reflexivity.
Defined.
